(** * TreasuryBot: the proposal / voting / execution ledger and the oracle's
      rule engine

    A shallow embedding of the Solidity contract [TreasuryBot] (membership,
    deposits, proposals, votes, manual and oracle execution) and of the
    JavaScript decision function [aiDecision] of the oracle bot.

    Contract functions are written in a small state-and-revert monad over a
    world made of the contract's storage, the state of the ERC-20 token it
    calls, and the event log.  [uint256] values are integers with Solidity
    0.8's checked arithmetic written out; mappings are finite maps read with
    the type's zero value as default.  A transaction that reverts leaves the
    world exactly as it found it ([transact]). *)

From Stdlib Require Import ZArith Lia Bool Ascii String.
From Stdlib Require Import Floats.SpecFloat.
From stdpp Require Import base option list gmap strings.

Local Open Scope Z_scope.

(** ** Values *)

Abbreviation address := Z (only parsing).

Definition MAX_UINT256 : Z := 2 ^ 256 - 1.

Definition is_uint256 (n : Z) : Prop := 0 <= n <= MAX_UINT256.

(** Reading a Solidity mapping: an absent key reads as the zero value. *)
Definition sload {K V} `{Countable K} (zero : V) (m : gmap K V) (k : K) : V :=
  default zero (m !! k).

(** ** Storage *)

Module Proposal.
Record t := mk {
  id : Z;
  proposer : address;
  recipient : address;
  amount : Z;
  description : string;
  votesFor : Z;
  votesAgainst : Z;
  hasVoted : gmap Z bool;
  executed : bool;
  createdAt : Z
}.

(** The value of a storage slot that was never written. *)
Definition zero : t :=
  mk 0 0 0 0 EmptyString 0 0 ∅ false 0.

Definition set_id v p :=
  mk v (proposer p) (recipient p) (amount p) (description p) (votesFor p)
     (votesAgainst p) (hasVoted p) (executed p) (createdAt p).
Definition set_proposer v p :=
  mk (id p) v (recipient p) (amount p) (description p) (votesFor p)
     (votesAgainst p) (hasVoted p) (executed p) (createdAt p).
Definition set_recipient v p :=
  mk (id p) (proposer p) v (amount p) (description p) (votesFor p)
     (votesAgainst p) (hasVoted p) (executed p) (createdAt p).
Definition set_amount v p :=
  mk (id p) (proposer p) (recipient p) v (description p) (votesFor p)
     (votesAgainst p) (hasVoted p) (executed p) (createdAt p).
Definition set_description v p :=
  mk (id p) (proposer p) (recipient p) (amount p) v (votesFor p)
     (votesAgainst p) (hasVoted p) (executed p) (createdAt p).
Definition set_votesFor v p :=
  mk (id p) (proposer p) (recipient p) (amount p) (description p) v
     (votesAgainst p) (hasVoted p) (executed p) (createdAt p).
Definition set_votesAgainst v p :=
  mk (id p) (proposer p) (recipient p) (amount p) (description p) (votesFor p)
     v (hasVoted p) (executed p) (createdAt p).
Definition set_hasVoted v p :=
  mk (id p) (proposer p) (recipient p) (amount p) (description p) (votesFor p)
     (votesAgainst p) v (executed p) (createdAt p).
Definition set_executed v p :=
  mk (id p) (proposer p) (recipient p) (amount p) (description p) (votesFor p)
     (votesAgainst p) (hasVoted p) v (createdAt p).
Definition set_createdAt v p :=
  mk (id p) (proposer p) (recipient p) (amount p) (description p) (votesFor p)
     (votesAgainst p) (hasVoted p) (executed p) v.
End Proposal.

Record Storage := mkStorage {
  owner : address;                       (* Ownable *)
  aiOracle : address;
  isMember : gmap Z bool;
  members : list address;
  memberCount : Z;
  proposals : gmap Z Proposal.t;
  proposalCount : Z;
  deposits : gmap Z Z;
  totalDeposits : Z
}.

Definition set_owner v s :=
  mkStorage v (aiOracle s) (isMember s) (members s) (memberCount s)
            (proposals s) (proposalCount s) (deposits s) (totalDeposits s).
Definition set_aiOracle v s :=
  mkStorage (owner s) v (isMember s) (members s) (memberCount s)
            (proposals s) (proposalCount s) (deposits s) (totalDeposits s).
Definition set_isMember v s :=
  mkStorage (owner s) (aiOracle s) v (members s) (memberCount s)
            (proposals s) (proposalCount s) (deposits s) (totalDeposits s).
Definition set_members v s :=
  mkStorage (owner s) (aiOracle s) (isMember s) v (memberCount s)
            (proposals s) (proposalCount s) (deposits s) (totalDeposits s).
Definition set_memberCount v s :=
  mkStorage (owner s) (aiOracle s) (isMember s) (members s) v
            (proposals s) (proposalCount s) (deposits s) (totalDeposits s).
Definition set_proposals v s :=
  mkStorage (owner s) (aiOracle s) (isMember s) (members s) (memberCount s)
            v (proposalCount s) (deposits s) (totalDeposits s).
Definition set_proposalCount v s :=
  mkStorage (owner s) (aiOracle s) (isMember s) (members s) (memberCount s)
            (proposals s) v (deposits s) (totalDeposits s).
Definition set_deposits v s :=
  mkStorage (owner s) (aiOracle s) (isMember s) (members s) (memberCount s)
            (proposals s) (proposalCount s) v (totalDeposits s).
Definition set_totalDeposits v s :=
  mkStorage (owner s) (aiOracle s) (isMember s) (members s) (memberCount s)
            (proposals s) (proposalCount s) (deposits s) v.

(** [proposals[i]] as a storage reference: reads of an unwritten slot give
    the zero proposal, a write through the reference updates slot [i]. *)
Definition proposal_at (s : Storage) (i : Z) : Proposal.t :=
  sload Proposal.zero (proposals s) i.

Definition update_proposal (i : Z) (f : Proposal.t -> Proposal.t) (s : Storage)
  : Storage :=
  set_proposals (<[i := f (proposal_at s i)]> (proposals s)) s.

(** ** Events and errors *)

Inductive Event :=
| MemberAdded (member : address)
| MemberRemoved (member : address)
| Deposited (member : address) (amount : Z)
| ProposalCreated (proposalId : Z) (proposer recipient : address) (amount : Z)
                  (description : string)
| Voted (proposalId : Z) (voter : address) (support : bool)
| ProposalExecuted (proposalId : Z) (executor : address) (isAI : bool)
| AIOrracleUpdated (oldOracle newOracle : address)
| OwnershipTransferred (previousOwner newOwner : address).

Inductive Error :=
| NotMember
| AlreadyMember
| InvalidAmount
| ProposalNotFound
| AlreadyVoted
| ProposalAlreadyExecuted
| InsufficientTreasuryBalance
| ProposalNotApproved
| UnauthorizedAIExecution
| InvalidRecipient
| OwnableUnauthorizedAccount        (* Ownable: onlyOwner *)
| OwnableInvalidOwner               (* Ownable: transferOwnership(0) *)
| SafeERC20FailedOperation          (* SafeERC20: the token answered false *)
| TokenError (reason : string)      (* the token's own revert, bubbled up *)
| Panic_arithmetic.                 (* checked arithmetic, Panic(0x11) *)

Global Instance Error_eq_dec : EqDecision Error.
Proof. solve_decision. Defined.

(** ** The token collaborator

    The contract holds an [IERC20] and calls [balanceOf], [transfer] and
    [transferFrom] on it (the last two through [SafeERC20]).  The token is
    not part of the contract: it is an interface, any implementation of which
    may be plugged in.  A call to [transfer] or [transferFrom] ends in one of
    three ways: it goes through (the token answers [true], or answers
    nothing, as some tokens do), it answers [false], or it reverts with an
    error of the token's own.  The first argument of [transfer] and
    [transferFrom] is the caller of the token, that is the treasury. *)

Inductive TokenResult (T : Type) :=
| Transferred (t' : T)
| Refused
| Threw (reason : string).
Arguments Transferred {T}.
Arguments Refused {T}.
Arguments Threw {T}.

(** The call did not go through. *)
Definition token_failed {T} (r : TokenResult T) : bool :=
  match r with
  | Transferred _ => false
  | Refused | Threw _ => true
  end.

(** The error a call through SafeERC20 ends with when the token call did not
    go through: the token's own if it reverted, the library's if it answered
    [false]. *)
Definition transfer_error {T} (r : TokenResult T) : Error :=
  match r with
  | Threw reason => TokenError reason
  | Transferred _ | Refused => SafeERC20FailedOperation
  end.

Class IERC20 (T : Type) := {
  balanceOf : T -> address -> Z;
  transfer : T -> address -> address -> Z -> TokenResult T;
  transferFrom : T -> address -> address -> address -> Z -> TokenResult T
}.

(** An external call made by the contract, with the contract's storage as it
    stood when the call was made (a ghost record: it lets one state what the
    callee could observe). *)
Inductive ExternalCall :=
| CallTransfer (to : address) (value : Z) (at_call : Storage)
| CallTransferFrom (from to : address) (value : Z) (at_call : Storage).

(** ** Worlds and the execution monad *)

Record Env := mkEnv {
  sender : address;          (* msg.sender *)
  timestamp : Z              (* block.timestamp *)
}.

Record World (T : Type) := mkWorld {
  this : address;                 (* address(this) *)
  storage : Storage;
  token : T;                      (* state of mneeToken *)
  events : list Event;            (* emitted so far *)
  calls : list ExternalCall       (* external calls made so far *)
}.
Arguments mkWorld {T}.
Arguments this {T}.
Arguments storage {T}.
Arguments token {T}.
Arguments events {T}.
Arguments calls {T}.

Inductive Outcome (A : Type) :=
| Ok (a : A)
| Revert (e : Error).
Arguments Ok {A}.
Arguments Revert {A}.

Section Ledger.
Context {T : Type} `{IERC20 T}.

(** A computation runs in a call context from a world and ends, normally or
    by a revert, in a world: the one reached at that point. *)
Definition M (A : Type) : Type := Env -> World T -> Outcome A * World T.

Definition ret {A} (a : A) : M A := fun _ w => (Ok a, w).

Definition bind {A B} (m : M A) (k : A -> M B) : M B :=
  fun e w =>
    match m e w with
    | (Ok a, w') => k a e w'
    | (Revert err, w') => (Revert err, w')
    end.

Definition revert {A} (err : Error) : M A := fun _ w => (Revert err, w).

Definition msg_sender : M address := fun e w => (Ok (sender e), w).
Definition block_timestamp : M Z := fun e w => (Ok (timestamp e), w).
Definition address_this : M address := fun _ w => (Ok (this w), w).

Definition read {A} (f : Storage -> A) : M A :=
  fun _ w => (Ok (f (storage w)), w).

Definition write (f : Storage -> Storage) : M unit :=
  fun _ w =>
    (Ok tt, mkWorld (this w) (f (storage w)) (token w) (events w) (calls w)).

Definition emit (ev : Event) : M unit :=
  fun _ w =>
    (Ok tt, mkWorld (this w) (storage w) (token w) (events w ++ [ev]) (calls w)).

(** [if (c) revert E();] *)
Definition revert_if (c : bool) (err : Error) : M unit :=
  if c then revert err else ret tt.
End Ledger.

Declare Scope sol_scope.
Delimit Scope sol_scope with sol.
Notation "x <- m ; k" := (bind m (fun x => k))
  (at level 20, m at level 100, k at level 200, only parsing) : sol_scope.
Notation "m ;; k" := (bind m (fun _ => k))
  (at level 100, k at level 200, only parsing, right associativity) : sol_scope.
Local Open Scope sol_scope.

Section Ledger_ops.
Context {T : Type} `{IERC20 T}.

(** *** Checked arithmetic (Solidity >= 0.8) *)

Definition checked_add (a b : Z) : M (T:=T) Z :=
  if a + b <=? MAX_UINT256 then ret (a + b) else revert Panic_arithmetic.

Definition checked_sub (a b : Z) : M (T:=T) Z :=
  if b <=? a then ret (a - b) else revert Panic_arithmetic.

(** *** Token calls *)

(** [mneeToken.balanceOf(address(this))] *)
Definition token_balanceOf_this : M (T:=T) Z :=
  fun _ w => (Ok (balanceOf (token w) (this w)), w).

(** [mneeToken.safeTransfer(to, value)]: the call is made from the storage
    as it stands.  SafeERC20 passes on the token's own revert and reverts
    with [SafeERC20FailedOperation] when the token answers [false]. *)
Definition safeTransfer (to : address) (value : Z) : M (T:=T) unit :=
  fun _ w =>
    let log := calls w ++ [CallTransfer to value (storage w)] in
    match transfer (token w) (this w) to value with
    | Transferred t' => (Ok tt, mkWorld (this w) (storage w) t' (events w) log)
    | Refused =>
        (Revert SafeERC20FailedOperation,
         mkWorld (this w) (storage w) (token w) (events w) log)
    | Threw reason =>
        (Revert (TokenError reason),
         mkWorld (this w) (storage w) (token w) (events w) log)
    end.

(** [mneeToken.safeTransferFrom(from, to, value)] *)
Definition safeTransferFrom (from to : address) (value : Z) : M (T:=T) unit :=
  fun _ w =>
    let log := calls w ++ [CallTransferFrom from to value (storage w)] in
    match transferFrom (token w) (this w) from to value with
    | Transferred t' => (Ok tt, mkWorld (this w) (storage w) t' (events w) log)
    | Refused =>
        (Revert SafeERC20FailedOperation,
         mkWorld (this w) (storage w) (token w) (events w) log)
    | Threw reason =>
        (Revert (TokenError reason),
         mkWorld (this w) (storage w) (token w) (events w) log)
    end.

(** *** Modifiers *)

(** [onlyOwner] of Ownable. *)
Definition onlyOwner : M (T:=T) unit :=
  caller <- msg_sender;
  o <- read owner;
  revert_if (negb (caller =? o)) OwnableUnauthorizedAccount.

(** [nonReentrant] guards [deposit], [executeProposal] and [autoExecute].
    Its status word is clear at the start of every transaction and is
    cleared again at its end, and a token as modelled here does not call
    back into the contract, so on a transaction the guard never fires; it
    is left out of the storage. *)

(** *** Member management *)

Definition addMember (_member : address) : M (T:=T) unit :=
  onlyOwner;;
  already <- read (fun s => sload false (isMember s) _member);
  revert_if already AlreadyMember;;
  write (fun s => set_isMember (<[_member := true]> (isMember s)) s);;
  write (fun s => set_members (members s ++ [_member]) s);;
  n <- read memberCount;
  n' <- checked_add n 1;
  write (set_memberCount n');;
  emit (MemberAdded _member).

Definition removeMember (_member : address) : M (T:=T) unit :=
  onlyOwner;;
  present <- read (fun s => sload false (isMember s) _member);
  revert_if (negb present) NotMember;;
  write (fun s => set_isMember (<[_member := false]> (isMember s)) s);;
  n <- read memberCount;
  n' <- checked_sub n 1;
  write (set_memberCount n');;
  emit (MemberRemoved _member).

Definition checkMember (_address : address) : M (T:=T) bool :=
  read (fun s => sload false (isMember s) _address).

(** *** Deposits *)

Definition deposit (_amount : Z) : M (T:=T) unit :=
  caller <- msg_sender;
  present <- read (fun s => sload false (isMember s) caller);
  revert_if (negb present) NotMember;;
  revert_if (_amount =? 0) InvalidAmount;;
  d <- read (fun s => sload 0 (deposits s) caller);
  d' <- checked_add d _amount;
  write (fun s => set_deposits (<[caller := d']> (deposits s)) s);;
  t <- read totalDeposits;
  t' <- checked_add t _amount;
  write (set_totalDeposits t');;
  self <- address_this;
  safeTransferFrom caller self _amount;;
  emit (Deposited caller _amount).

Definition getTreasuryBalance : M (T:=T) Z := token_balanceOf_this.

(** *** Proposals *)

Definition createProposal (_recipient : address) (_amount : Z)
           (_description : string) : M (T:=T) Z :=
  caller <- msg_sender;
  present <- read (fun s => sload false (isMember s) caller);
  revert_if (negb present) NotMember;;
  revert_if (_recipient =? 0) InvalidRecipient;;
  revert_if (_amount =? 0) InvalidAmount;;
  proposalId <- read proposalCount;
  next <- checked_add proposalId 1;
  write (set_proposalCount next);;
  write (update_proposal proposalId (Proposal.set_id proposalId));;
  write (update_proposal proposalId (Proposal.set_proposer caller));;
  write (update_proposal proposalId (Proposal.set_recipient _recipient));;
  write (update_proposal proposalId (Proposal.set_amount _amount));;
  write (update_proposal proposalId (Proposal.set_description _description));;
  now <- block_timestamp;
  write (update_proposal proposalId (Proposal.set_createdAt now));;
  emit (ProposalCreated proposalId caller _recipient _amount _description);;
  ret proposalId.

Definition vote (_proposalId : Z) (_support : bool) : M (T:=T) unit :=
  caller <- msg_sender;
  present <- read (fun s => sload false (isMember s) caller);
  revert_if (negb present) NotMember;;
  count <- read proposalCount;
  revert_if (count <=? _proposalId) ProposalNotFound;;
  done_ <- read (fun s => Proposal.executed (proposal_at s _proposalId));
  revert_if done_ ProposalAlreadyExecuted;;
  voted <- read (fun s =>
             sload false (Proposal.hasVoted (proposal_at s _proposalId)) caller);
  revert_if voted AlreadyVoted;;
  write (update_proposal _proposalId
           (fun p => Proposal.set_hasVoted (<[caller := true]> (Proposal.hasVoted p)) p));;
  (if _support
   then
     v <- read (fun s => Proposal.votesFor (proposal_at s _proposalId));
     v' <- checked_add v 1;
     write (update_proposal _proposalId (Proposal.set_votesFor v'))
   else
     v <- read (fun s => Proposal.votesAgainst (proposal_at s _proposalId));
     v' <- checked_add v 1;
     write (update_proposal _proposalId (Proposal.set_votesAgainst v')));;
  emit (Voted _proposalId caller _support).

Definition executeProposal (_proposalId : Z) : M (T:=T) unit :=
  count <- read proposalCount;
  revert_if (count <=? _proposalId) ProposalNotFound;;
  done_ <- read (fun s => Proposal.executed (proposal_at s _proposalId));
  revert_if done_ ProposalAlreadyExecuted;;
  n <- read memberCount;
  requiredVotes <- checked_add (n / 2) 1;
  votes <- read (fun s => Proposal.votesFor (proposal_at s _proposalId));
  revert_if (votes <? requiredVotes) ProposalNotApproved;;
  balance <- token_balanceOf_this;
  wanted <- read (fun s => Proposal.amount (proposal_at s _proposalId));
  revert_if (balance <? wanted) InsufficientTreasuryBalance;;
  write (update_proposal _proposalId (Proposal.set_executed true));;
  to <- read (fun s => Proposal.recipient (proposal_at s _proposalId));
  value <- read (fun s => Proposal.amount (proposal_at s _proposalId));
  safeTransfer to value;;
  caller <- msg_sender;
  emit (ProposalExecuted _proposalId caller false).

Definition autoExecute (_proposalId : Z) : M (T:=T) unit :=
  caller <- msg_sender;
  oracle <- read aiOracle;
  revert_if (negb (caller =? oracle)) UnauthorizedAIExecution;;
  count <- read proposalCount;
  revert_if (count <=? _proposalId) ProposalNotFound;;
  done_ <- read (fun s => Proposal.executed (proposal_at s _proposalId));
  revert_if done_ ProposalAlreadyExecuted;;
  balance <- token_balanceOf_this;
  wanted <- read (fun s => Proposal.amount (proposal_at s _proposalId));
  revert_if (balance <? wanted) InsufficientTreasuryBalance;;
  write (update_proposal _proposalId (Proposal.set_executed true));;
  to <- read (fun s => Proposal.recipient (proposal_at s _proposalId));
  value <- read (fun s => Proposal.amount (proposal_at s _proposalId));
  safeTransfer to value;;
  emit (ProposalExecuted _proposalId caller true).

Definition setAIOracle (_oracle : address) : M (T:=T) unit :=
  onlyOwner;;
  oldOracle <- read aiOracle;
  write (set_aiOracle _oracle);;
  emit (AIOrracleUpdated oldOracle _oracle).

(** *** Ownable's own entry points (inherited by the contract) *)

Definition transferOwnership (newOwner : address) : M (T:=T) unit :=
  onlyOwner;;
  revert_if (newOwner =? 0) OwnableInvalidOwner;;
  old <- read owner;
  write (set_owner newOwner);;
  emit (OwnershipTransferred old newOwner).

Definition renounceOwnership : M (T:=T) unit :=
  onlyOwner;;
  old <- read owner;
  write (set_owner 0);;
  emit (OwnershipTransferred old 0).

(** *** Views *)

Definition getAllMembers : M (T:=T) (list address) := read members.

Definition hasVoted (_proposalId : Z) (_member : address) : M (T:=T) bool :=
  count <- read proposalCount;
  revert_if (count <=? _proposalId) ProposalNotFound;;
  read (fun s => sload false (Proposal.hasVoted (proposal_at s _proposalId)) _member).

(** ** Transactions

    A call that reverts undoes everything it did: storage, token state,
    events and calls are those of the world it started from. *)
Definition transact {A} (m : M (T:=T) A) (e : Env) (w : World T)
  : Outcome A * World T :=
  match m e w with
  | (Ok a, w') => (Ok a, w')
  | (Revert err, _) => (Revert err, w)
  end.
End Ledger_ops.


(** ** Deployment

    [constructor(_mneeToken, _initialOwner) Ownable(_initialOwner)]: Ownable
    refuses the zero owner, the body refuses the zero token address; every
    other storage variable starts at its zero value. *)
Definition constructor (_mneeToken _initialOwner : address) : option Storage :=
  if _initialOwner =? 0 then None
  else if _mneeToken =? 0 then None
  else Some (mkStorage _initialOwner 0 ∅ [] 0 ∅ 0 ∅ 0).

(** ** Histories

    The contract's external entry points that change state, and the worlds
    one can reach by transactions sent by anyone at any time, interleaved
    with token activity the contract takes no part in. *)
Inductive Call :=
| Call_addMember (_member : address)
| Call_removeMember (_member : address)
| Call_deposit (_amount : Z)
| Call_createProposal (_recipient : address) (_amount : Z) (_description : string)
| Call_vote (_proposalId : Z) (_support : bool)
| Call_executeProposal (_proposalId : Z)
| Call_autoExecute (_proposalId : Z)
| Call_setAIOracle (_oracle : address)
| Call_transferOwnership (newOwner : address)
| Call_renounceOwnership.

Section Histories.
Context {T : Type} `{IERC20 T}.

Definition run_call (c : Call) : M (T:=T) unit :=
  match c with
  | Call_addMember m => addMember m
  | Call_removeMember m => removeMember m
  | Call_deposit a => deposit a
  | Call_createProposal r a d => (_ <- createProposal r a d; ret tt)
  | Call_vote i s => vote i s
  | Call_executeProposal i => executeProposal i
  | Call_autoExecute i => autoExecute i
  | Call_setAIOracle o => setAIOracle o
  | Call_transferOwnership o => transferOwnership o
  | Call_renounceOwnership => renounceOwnership
  end.

Inductive step : World T -> World T -> Prop :=
| step_transaction (e : Env) (c : Call) (w : World T) :
    step w (snd (transact (run_call c) e w))
| step_token (w : World T) (t' : T) :
    step w (mkWorld (this w) (storage w) t' (events w) (calls w)).

Definition later (w w' : World T) : Prop := rtc step w w'.

(** A world right after deployment, and the worlds that follow from one. *)
Definition deployed (w : World T) : Prop :=
  exists tok_addr initialOwner,
    constructor tok_addr initialOwner = Some (storage w).

Definition reachable (w : World T) : Prop :=
  exists w0, deployed w0 /\ later w0 w.
End Histories.

(** ** A plain token, for examples

    Balances and allowances as OpenZeppelin's ERC20 keeps them, with a pause
    switch as regulated tokens have: while paused every transfer fails.  A
    failure is a revert with the library's error, or, for a token of the
    older kind ([answers_false]), the answer [false]. *)
Record PlainToken := mkPlainToken {
  balances : gmap Z Z;
  allowances : gmap (Z * Z) Z;
  paused : bool;
  answers_false : bool
}.

Definition plain_balanceOf (t : PlainToken) (a : address) : Z :=
  sload 0 (balances t) a.

Definition plain_fail (t : PlainToken) (reason : string) : TokenResult PlainToken :=
  if answers_false t then Refused else Threw reason.

Definition plain_move (t : PlainToken) (from to : address) (value : Z)
  : TokenResult PlainToken :=
  if from =? 0 then plain_fail t "ERC20InvalidSender"
  else if to =? 0 then plain_fail t "ERC20InvalidReceiver"
  else if paused t then plain_fail t "EnforcedPause"
  else if plain_balanceOf t from <? value
  then plain_fail t "ERC20InsufficientBalance"
  else
    let b1 := <[from := plain_balanceOf t from - value]> (balances t) in
    let b2 := <[to := sload 0 b1 to + value]> b1 in
    Transferred (mkPlainToken b2 (allowances t) (paused t) (answers_false t)).

Definition plain_transfer (t : PlainToken) (caller to : address) (value : Z)
  : TokenResult PlainToken :=
  plain_move t caller to value.

Definition plain_transferFrom (t : PlainToken) (caller from to : address)
           (value : Z) : TokenResult PlainToken :=
  let allowed := sload 0 (allowances t) (from, caller) in
  if allowed <? value then plain_fail t "ERC20InsufficientAllowance"
  else
    match plain_move t from to value with
    | Transferred t' =>
        Transferred (mkPlainToken (balances t')
                       (<[(from, caller) := allowed - value]> (allowances t'))
                       (paused t') (answers_false t'))
    | Refused => Refused
    | Threw reason => Threw reason
    end.

Global Instance PlainToken_IERC20 : IERC20 PlainToken := {
  balanceOf := plain_balanceOf;
  transfer := plain_transfer;
  transferFrom := plain_transferFrom
}.

(** Running a script of transactions, each from its own call context. *)
Definition play {T : Type} `{IERC20 T} (script : list (Env * Call)) (w : World T)
  : World T :=
  fold_left (fun w ec => snd (transact (run_call ec.2) ec.1 w)) script w.

Section Execution_worlds.
Context {T : Type} `{IERC20 T}.
Implicit Types (w : World T) (i : Z).

(** The world in which an execution of proposal [i] ends when the token hands
    over [t']: flag set, token moved on, one event, one external call. *)
Definition executed_world w i (t' : T) (caller : address) (isAI : bool) : World T :=
  let p := proposal_at (storage w) i in
  mkWorld (this w)
    (update_proposal i (Proposal.set_executed true) (storage w))
    t'
    (events w ++ [ProposalExecuted i caller isAI])
    (calls w ++ [CallTransfer (Proposal.recipient p) (Proposal.amount p)
                   (update_proposal i (Proposal.set_executed true) (storage w))]).

(** The world at the point where a failed token transfer makes the run
    revert: the flag is already written, the call is on record. *)
Definition stalled_world w i : World T :=
  let p := proposal_at (storage w) i in
  mkWorld (this w)
    (update_proposal i (Proposal.set_executed true) (storage w))
    (token w)
    (events w)
    (calls w ++ [CallTransfer (Proposal.recipient p) (Proposal.amount p)
                   (update_proposal i (Proposal.set_executed true) (storage w))]).

Definition transfer_out w i : TokenResult T :=
  let p := proposal_at (storage w) i in
  transfer (token w) (this w) (Proposal.recipient p) (Proposal.amount p).


(** What a run of an execution call on proposal [i] may add to the record of
    external calls: nothing, or one transfer to the proposal's recipient made
    from a storage in which the proposal is already flagged executed. *)
Definition transfer_after_flag w i (w_end : World T) : Prop :=
  calls w_end = calls w \/
  exists st,
    calls w_end =
      calls w ++ [CallTransfer (Proposal.recipient (proposal_at (storage w) i))
                    (Proposal.amount (proposal_at (storage w) i)) st] /\
    Proposal.executed (proposal_at st i) = true.
End Execution_worlds.

(** The two entry points that pay a proposal out. *)
Definition execution_call (i : Z) (c : Call) : Prop :=
  c = Call_executeProposal i \/ c = Call_autoExecute i.

(** Worlds whose counters are [uint256] values and whose proposal slots from
    [proposalCount] on were never written. *)
Definition wf_storage (s : Storage) : Prop :=
  is_uint256 (memberCount s) /\
  is_uint256 (proposalCount s) /\
  forall i, proposalCount s <= i -> proposals s !! i = None.

(** The identities whose membership flag is set, and the two facts that tie
    the counter and the array to them. *)
Definition current_members (s : Storage) : gmap Z bool :=
  filter (fun kv => kv.2 = true) (isMember s).

Definition members_counted (s : Storage) : Prop :=
  memberCount s = Z.of_nat (size (current_members s)).

Definition members_listed (s : Storage) : Prop :=
  forall m, sload false (isMember s) m = true -> m ∈ members s.

(** The votes of a storage wiped: tallies at zero, nobody has voted. *)
Definition erase_votes_of (p : Proposal.t) : Proposal.t :=
  Proposal.set_hasVoted ∅ (Proposal.set_votesAgainst 0 (Proposal.set_votesFor 0 p)).

Definition erase_votes (s : Storage) : Storage :=
  set_proposals (erase_votes_of <$> proposals s) s.

Definition with_storage {T} (s : Storage) (w : World T) : World T :=
  mkWorld (this w) s (token w) (events w) (calls w).


(** ** The remaining view and what the logs add up to *)

Section Views.
Context {T : Type} `{IERC20 T}.

(** [getProposal(_proposalId)]: the proposal's fields but the has-voted
    mapping, in the order of the Solidity return tuple. *)
Definition getProposal (_proposalId : Z)
  : M (T:=T) (Z * address * address * Z * string * Z * Z * bool * Z) :=
  count <- read proposalCount;
  revert_if (count <=? _proposalId) ProposalNotFound;;
  p <- read (fun s => proposal_at s _proposalId);
  ret (Proposal.id p, Proposal.proposer p, Proposal.recipient p,
       Proposal.amount p, Proposal.description p, Proposal.votesFor p,
       Proposal.votesAgainst p, Proposal.executed p, Proposal.createdAt p).
End Views.

(** The sum of all recorded deposits. *)
Definition sum_deposits (s : Storage) : Z :=
  map_fold (fun _ v acc => v + acc) 0 (deposits s).

(** What the recorded token calls pulled into the treasury. *)
Definition pulled_in (c : ExternalCall) : Z :=
  match c with
  | CallTransferFrom _ _ value _ => value
  | CallTransfer _ _ _ => 0
  end.

Definition total_pulled_in (cs : list ExternalCall) : Z :=
  foldr (fun c acc => pulled_in c + acc) 0 cs.

(** The [ProposalExecuted] events for proposal [i] in a log. *)
Definition is_execution_of (i : Z) (ev : Event) : bool :=
  match ev with
  | ProposalExecuted j _ _ => j =? i
  | _ => false
  end.

Definition executions_logged (i : Z) (evs : list Event) : nat :=
  length (List.filter (is_execution_of i) evs).

(** The identities recorded as having voted on a proposal. *)
Definition voters (p : Proposal.t) : gmap Z bool :=
  filter (fun kv => kv.2 = true) (Proposal.hasVoted p).

(** Tallies add up to the recorded voters, on every slot. *)
Definition tallies_match (s : Storage) : Prop :=
  forall i,
    0 <= Proposal.votesFor (proposal_at s i) /\
    0 <= Proposal.votesAgainst (proposal_at s i) /\
    Proposal.votesFor (proposal_at s i) + Proposal.votesAgainst (proposal_at s i)
    = Z.of_nat (size (voters (proposal_at s i))).

(** Every allocated proposal carries its own index, a recipient and an
    amount. *)
Definition proposals_well_formed (s : Storage) : Prop :=
  forall i, 0 <= i < proposalCount s ->
    Proposal.id (proposal_at s i) = i /\
    Proposal.recipient (proposal_at s i) <> 0 /\
    Proposal.amount (proposal_at s i) <> 0.

(** The books agree: the pooled total is the sum of the members' deposits
    and what the token calls on record pulled in. *)
Definition books_balance {T} (w : World T) : Prop :=
  totalDeposits (storage w) = sum_deposits (storage w) /\
  totalDeposits (storage w) = total_pulled_in (calls w).

(** Each proposal's flag tells whether its execution is in the log, and it
    is there at most once. *)
Definition executions_match {T} (w : World T) : Prop :=
  forall i, executions_logged i (events w)
            = if Proposal.executed (proposal_at (storage w) i) then 1%nat else 0%nat.

(** A world right after deployment: nothing logged yet. *)
Definition fresh {T} (w : World T) : Prop :=
  (exists tok_addr initialOwner,
      constructor tok_addr initialOwner = Some (storage w)) /\
  events w = [] /\ calls w = [].

(** What never changes in a proposal once it is created. *)
Definition terms_of (p : Proposal.t)
  : Z * address * address * Z * string * Z :=
  (Proposal.id p, Proposal.proposer p, Proposal.recipient p, Proposal.amount p,
   Proposal.description p, Proposal.createdAt p).

(** The part of the storage that only the owner administers. *)
Definition administration (s : Storage)
  : address * address * gmap Z bool * list address * Z :=
  (owner s, aiOracle s, isMember s, members s, memberCount s).

(** * The oracle's rule engine

    [aiDecision] of the oracle bot decides from a proposal's amount, its
    description and the treasury balance whether to call [autoExecute].

    JavaScript numbers are IEEE-754 binary64 values, with the operations of
    the standard library's [SpecFloat].  Descriptions are byte strings;
    [toLowerCase] maps the letters A-Z, and the keywords searched for are
    plain lower-case ASCII. *)

Module Oracle.

Abbreviation Number := spec_float (only parsing).

Definition prec : Z := 53.
Definition emax : Z := 1024.

(** An integer literal. *)
Definition num (n : Z) : Number := binary_normalize prec emax n 0 false.

(** [a - b] and [a < b] on Numbers. *)
Definition sub (a b : Number) : Number := SFsub prec emax a b.
Definition ltb (a b : Number) : bool := SFltb a b.

(** [Number(ethers.formatEther(wei))]: [formatEther] writes [wei / 10^18] out
    in decimal, exactly, and [Number] reads a decimal numeral as the nearest
    binary64 value, ties to even. *)
Definition Number_formatEther (wei : Z) : Number :=
  match wei with
  | Z0 => S754_zero false
  | Zpos p => SFdiv prec emax (S754_finite false p 0)
                (S754_finite false (Z.to_pos (10 ^ 18)) 0)
  | Zneg p => SFdiv prec emax (S754_finite true p 0)
                (S754_finite false (Z.to_pos (10 ^ 18)) 0)
  end.

(** [String.prototype.toLowerCase] *)
Definition lower_char (c : ascii) : ascii :=
  let n := nat_of_ascii c in
  if (65 <=? n)%nat && (n <=? 90)%nat then ascii_of_nat (n + 32) else c.

Fixpoint toLowerCase (s : string) : string :=
  match s with
  | EmptyString => EmptyString
  | String c rest => String (lower_char c) (toLowerCase rest)
  end.

(** [s.startsWith(sub)] and [s.includes(sub)] *)
Fixpoint startsWith (s sub : string) : bool :=
  match sub, s with
  | EmptyString, _ => true
  | String _ _, EmptyString => false
  | String b sub', String a s' => if Ascii.eqb a b then startsWith s' sub' else false
  end.

Fixpoint includes (s sub : string) : bool :=
  if startsWith s sub then true
  else match s with
       | EmptyString => false
       | String _ rest => includes rest sub
       end.

(** [aiDecision(proposal, description)], with the balance that
    [getTreasuryBalance()] answers; [true] is EXECUTE. *)
Definition aiDecision (proposal_amount : Z) (description : string)
           (treasuryBalance : Z) : bool :=
  let amountInMNEE := Number_formatEther proposal_amount in
  let descriptionLower := toLowerCase description in
  (* Rule 1 *)
  if includes descriptionLower "emergency" && ltb amountInMNEE (num 10) then true
  (* Rule 2 *)
  else if includes descriptionLower "subscription" && ltb amountInMNEE (num 50)
  then true
  (* Rule 3 *)
  else if includes descriptionLower "gas" && ltb amountInMNEE (num 5) then true
  else
    (* Rule 4 *)
    let balanceAfter := sub (Number_formatEther treasuryBalance) amountInMNEE in
    if ltb balanceAfter (num 100) then false
    (* Rule 5 *)
    else if includes descriptionLower "urgent" && ltb amountInMNEE (num 20)
    then true
    else false.

(** ** The policy as the specification words it *)

Inductive Decision := Approved | Deferred.

Definition decision_of (execute : bool) : Decision :=
  if execute then Approved else Deferred.

(** Two characters, two texts that differ at most in the case of letters. *)
Definition same_letter (a b : ascii) : Prop := lower_char a = lower_char b.

Inductive same_text : string -> string -> Prop :=
| same_text_nil : same_text EmptyString EmptyString
| same_text_cons a b s t :
    same_letter a b -> same_text s t -> same_text (String a s) (String b t).

(** [text] contains [keyword], case-insensitively. *)
Definition contains_ci (text keyword : string) : Prop :=
  exists before found after,
    text = (before ++ found ++ after)%string /\ same_text found keyword.

Definition less (a b : Number) : Prop := SFltb a b = true.

(** A rule: a condition on the input and the decision it gives. *)
Definition Rule : Type := Prop * Decision.

(** The outcome of an ordered rule list: the decision of the first rule
    whose condition holds, the default if none does. *)
Inductive first_match : list Rule -> Decision -> Decision -> Prop :=
| first_match_default d : first_match [] d d
| first_match_here (P : Prop) r rest d :
    P -> first_match ((P, r) :: rest) d r
| first_match_next (P : Prop) r rest d out :
    ~ P -> first_match rest d out -> first_match ((P, r) :: rest) d out.

(** One MNEE in the token's smallest unit. *)
Definition MNEE : Z := 10 ^ 18.

(** The reference thresholds and the reserve floor, in MNEE. *)
Definition threshold1 : Z := 10.
Definition threshold2 : Z := 50.
Definition threshold3 : Z := 5.
Definition threshold4 : Z := 20.
Definition reserve_floor : Z := 100.

(** The rule list of the specification, on exact amounts: the proposal's
    amount and the treasury balance in the token's smallest unit, compared
    with the thresholds as numbers, with no rounding. *)
Definition rules (amount : Z) (descriptionText : string) (treasuryBalance : Z)
  : list Rule :=
  [ (contains_ci descriptionText "emergency" /\ amount < threshold1 * MNEE,
     Approved);
    (contains_ci descriptionText "subscription" /\ amount < threshold2 * MNEE,
     Approved);
    (contains_ci descriptionText "gas" /\ amount < threshold3 * MNEE, Approved);
    (treasuryBalance - amount < reserve_floor * MNEE, Deferred);
    (contains_ci descriptionText "urgent" /\ amount < threshold4 * MNEE,
     Approved) ].

Definition policy (amount : Z) (descriptionText : string) (treasuryBalance : Z)
           (d : Decision) : Prop :=
  first_match (rules amount descriptionText treasuryBalance) Deferred d.

(** The five numeric tests of the code give the exact answer on an amount
    and a balance: converting to Numbers and subtracting loses nothing that
    a comparison depends on. *)
Definition tests_exact (amount treasuryBalance : Z) : Prop :=
  (less (Number_formatEther amount) (num 10) <-> amount < threshold1 * MNEE) /\
  (less (Number_formatEther amount) (num 50) <-> amount < threshold2 * MNEE) /\
  (less (Number_formatEther amount) (num 5) <-> amount < threshold3 * MNEE) /\
  (less (sub (Number_formatEther treasuryBalance) (Number_formatEther amount))
        (num 100)
   <-> treasuryBalance - amount < reserve_floor * MNEE) /\
  (less (Number_formatEther amount) (num 20) <-> amount < threshold4 * MNEE).

End Oracle.

(** * The oracle bot's handler

    [AIOracle.analyzeAndExecute] runs on every [ProposalCreated] event.  It
    reads the proposal, decides, and sends [autoExecute] from the bot's
    wallet.  Each [await] is a separate round trip to the chain: the
    proposal is read in one world, the balance in a second, and the
    transaction lands in a third; errors are caught and logged, never
    rethrown. *)
Module Bot.

Inductive Report :=
| Analysis_failed (err : Error)     (* getProposal threw *)
| Skipped_executed                  (* "Proposal already executed, skipping" *)
| Skipped_by_decision               (* "AI Decision: SKIP" *)
| Executed                          (* "Proposal executed successfully!" *)
| Execution_failed (err : Error).   (* "Execution failed" *)

Section Handler.
Context {T : Type} `{IERC20 T}.

(** [AIOracle.executeProposal(proposalId)]: send [autoExecute], catch what it
    throws. *)
Definition executeProposal (wallet : Env) (proposalId : Z) (w_tx : World T)
  : Report * World T :=
  match transact (autoExecute proposalId) wallet w_tx with
  | (Ok _, w') => (Executed, w')
  | (Revert err, w') => (Execution_failed err, w')
  end.

(** [AIOracle.analyzeAndExecute(proposalId, amount, description)] *)
Definition analyzeAndExecute (wallet : Env) (proposalId amount : Z)
           (description : string) (w_read w_balance w_tx : World T)
  : Report * World T :=
  match fst (transact (getProposal proposalId) wallet w_read) with
  | Revert err => (Analysis_failed err, w_tx)
  | Ok (_, _, _, proposal_amount, _, _, _, proposal_executed, _) =>
      if proposal_executed then (Skipped_executed, w_tx)
      else
        match fst (transact getTreasuryBalance wallet w_balance) with
        | Revert err => (Analysis_failed err, w_tx)
        | Ok treasuryBalance =>
            if Oracle.aiDecision proposal_amount description treasuryBalance
            then executeProposal wallet proposalId w_tx
            else (Skipped_by_decision, w_tx)
        end
  end.
End Handler.
End Bot.

(** ** Example worlds

    A three-member treasury over a plain token, built by transactions from
    the deployment on. *)
Module Example.
Definition admin : address := 1.
Definition alice : address := 1001.
Definition bob : address := 1002.
Definition carol : address := 1003.
Definition mallory : address := 1666.
Definition oracle_bot : address := 2000.
Definition vendor : address := 3000.
Definition treasury : address := 5000.
Definition mnee : address := 8000.

Definition token0 : PlainToken :=
  mkPlainToken {[ alice := 1000 ]} {[ (alice, treasury) := 1000 ]} false false.

Definition genesis : World PlainToken :=
  mkWorld treasury (mkStorage admin 0 ∅ [] 0 ∅ 0 ∅ 0) token0 [] [].

Definition by_ (a : address) (c : Call) : Env * Call := (mkEnv a 1700000000, c).

Definition pause (w : World PlainToken) : World PlainToken :=
  mkWorld (this w) (storage w)
    (mkPlainToken (balances (token w)) (allowances (token w)) true
       (answers_false (token w)))
    (events w) (calls w).

(** The same world over a token that answers [false] where it would
    revert. *)
Definition soften (w : World PlainToken) : World PlainToken :=
  mkWorld (this w) (storage w)
    (mkPlainToken (balances (token w)) (allowances (token w)) (paused (token w))
       true)
    (events w) (calls w).

(** Three members, an oracle, 500 in custody. *)
Definition funded : World PlainToken :=
  play [ by_ admin (Call_addMember alice);
         by_ admin (Call_addMember bob);
         by_ admin (Call_addMember carol);
         by_ admin (Call_setAIOracle oracle_bot);
         by_ alice (Call_deposit 500) ] genesis.

(** Proposal 0 asks for 100, proposal 1 for more than the treasury holds. *)
Definition proposed : World PlainToken :=
  play [ by_ bob (Call_createProposal vendor 100 "subscription renewal");
         by_ bob (Call_createProposal vendor 900 "new office") ] funded.

(** One vote for proposal 0: one short of the majority of three. *)
Definition one_vote : World PlainToken :=
  play [ by_ alice (Call_vote 0 true) ] proposed.

(** Two votes for proposal 0, two for proposal 1: both have their majority. *)
Definition approved : World PlainToken :=
  play [ by_ bob (Call_vote 0 true);
         by_ alice (Call_vote 1 true);
         by_ carol (Call_vote 1 true) ] one_vote.

(** Proposal 0 paid out by the manual path. *)
Definition paid : World PlainToken :=
  play [ by_ carol (Call_executeProposal 0) ] approved.
End Example.

(** Further example worlds. *)
Module Scenario.
Import Example.

(** Life goes on after proposal 0 was paid: a vote on proposal 1, a member
    removed, a deposit, a new proposal. *)
Definition aftermath : World PlainToken :=
  play [ by_ bob (Call_vote 1 false);
         by_ admin (Call_removeMember carol);
         by_ alice (Call_deposit 100);
         by_ bob (Call_createProposal vendor 5 "Gas refund") ] paid.

(** The oracle bot's wallet. *)
Definition wallet : Env := mkEnv oracle_bot 1700000100.

Definition admin_env : Env := mkEnv admin 1700000000.
Definition stranger : Env := mkEnv mallory 1700000000.
End Scenario.
(** * Properties *)

(** ** Reading and writing storage *)

Lemma MAX_UINT256_pos : 1 <= MAX_UINT256.
Proof. unfold MAX_UINT256. lia. Qed.

Lemma half_plus_one_fits (n : Z) : is_uint256 n -> n / 2 + 1 <= MAX_UINT256.
Proof.
  intros [Hlo Hhi]. pose proof MAX_UINT256_pos.
  pose proof (Z.div_mod n 2 ltac:(lia)). pose proof (Z.mod_pos_bound n 2 ltac:(lia)).
  lia.
Qed.

Lemma sload_insert {V} (zero v : V) (m : gmap Z V) (i j : Z) :
  sload zero (<[i := v]> m) j = if decide (i = j) then v else sload zero m j.
Proof. unfold sload. rewrite lookup_insert. by case_decide. Qed.

Lemma sload_insert_eq {V} (zero v : V) (m : gmap Z V) (i : Z) :
  sload zero (<[i := v]> m) i = v.
Proof. rewrite sload_insert. by case_decide. Qed.

Lemma sload_insert_ne {V} (zero v : V) (m : gmap Z V) (i j : Z) :
  i <> j -> sload zero (<[i := v]> m) j = sload zero m j.
Proof. intros. rewrite sload_insert. by case_decide. Qed.

Lemma proposal_at_update (s : Storage) (i j : Z) f :
  proposal_at (update_proposal i f s) j =
  if decide (i = j) then f (proposal_at s i) else proposal_at s j.
Proof. unfold proposal_at, update_proposal. cbn. apply sload_insert. Qed.

Lemma proposal_at_update_eq (s : Storage) (i : Z) f :
  proposal_at (update_proposal i f s) i = f (proposal_at s i).
Proof. rewrite proposal_at_update. by case_decide. Qed.

Lemma proposal_at_update_ne (s : Storage) (i j : Z) f :
  i <> j -> proposal_at (update_proposal i f s) j = proposal_at s j.
Proof. intros. rewrite proposal_at_update. by case_decide. Qed.

Lemma proposal_at_fresh (s : Storage) (i : Z) :
  wf_storage s -> proposalCount s <= i -> proposal_at s i = Proposal.zero.
Proof.
  intros (_ & _ & Hfresh) Hi. unfold proposal_at, sload.
  by rewrite (Hfresh i Hi).
Qed.

Lemma proposal_at_erase_votes (s : Storage) (i : Z) :
  proposal_at (erase_votes s) i = erase_votes_of (proposal_at s i).
Proof.
  unfold proposal_at, erase_votes, sload. cbn. rewrite lookup_fmap.
  by destruct (proposals s !! i).
Qed.

(** ** Proof automation for contract calls *)

Ltac sol_unfold :=
  unfold transact, run_call, executeProposal, autoExecute, vote, deposit,
    createProposal, addMember, removeMember, setAIOracle, transferOwnership,
    renounceOwnership, getAllMembers, hasVoted, checkMember, getTreasuryBalance,
    onlyOwner, checked_add, checked_sub, token_balanceOf_this,
    safeTransfer, safeTransferFrom, bind, ret, revert, revert_if, read, write,
    emit, msg_sender, block_timestamp, address_this.

(** Rewrite with the guards whose value is known, and read back through the
    storage references that were just written. *)
Ltac sol_rw :=
  repeat (cbn;
    match goal with
    | H : ?c = true |- context [?c] => rewrite H
    | H : ?c = false |- context [?c] => rewrite H
    | H : ?c = Transferred _ |- context [match ?c with Transferred _ => _ | _ => _ end] =>
        rewrite H
    | H : ?c = Refused |- context [match ?c with Transferred _ => _ | _ => _ end] =>
        rewrite H
    | H : ?c = Threw _ |- context [match ?c with Transferred _ => _ | _ => _ end] =>
        rewrite H
    | |- context [proposal_at (update_proposal ?i _ _) ?i] =>
        rewrite proposal_at_update_eq
    | |- context [sload _ (<[?i := _]> _) ?i] => rewrite sload_insert_eq
    end); cbn.

(** Split on the first guard whose value is not known. *)
Ltac sol_case :=
  match goal with
  | |- context [if ?c then _ else _] =>
      lazymatch c with
      | context [if _ then _ else _] => fail
      | _ => destruct c eqn:?
      end
  | |- context [match ?c with Transferred _ => _ | _ => _ end] =>
      destruct c eqn:?
  end; sol_rw.

Ltac sol_cases := sol_unfold; sol_rw; repeat sol_case.

Ltac to_Prop :=
  repeat match goal with
  | H : (_ <=? _) = true |- _ => apply Z.leb_le in H
  | H : (_ <=? _) = false |- _ => apply Z.leb_gt in H
  | H : (_ <? _) = true |- _ => apply Z.ltb_lt in H
  | H : (_ <? _) = false |- _ => apply Z.ltb_ge in H
  | H : (_ =? _) = true |- _ => apply Z.eqb_eq in H
  | H : (_ =? _) = false |- _ => apply Z.eqb_neq in H
  | H : negb _ = true |- _ => apply negb_true_iff in H
  | H : negb _ = false |- _ => apply negb_false_iff in H
  end.

Section Execution.
Context {T : Type} `{IERC20 T}.
Implicit Types (e : Env) (w : World T) (i : Z).

(** A transaction that fails leaves the world as it was. *)
Lemma transact_revert {A} (m : M A) e w err w' :
  transact m e w = (Revert err, w') -> w' = w.
Proof.
  unfold transact. destruct (m e w) as [[a|err'] w'']; congruence.
Qed.

Lemma transact_cases {A} (m : M A) e w :
  (exists a w', transact m e w = (Ok a, w')) \/
  (exists err, transact m e w = (Revert err, w)).
Proof.
  unfold transact. destruct (m e w) as [[a|err] w']; eauto.
Qed.

(** The manual path: what [executeProposal] does once its four guards are
    decided. *)
Lemma executeProposal_not_approved e w i :
  is_uint256 (memberCount (storage w)) ->
  i < proposalCount (storage w) ->
  Proposal.executed (proposal_at (storage w) i) = false ->
  Proposal.votesFor (proposal_at (storage w) i) < memberCount (storage w) / 2 + 1 ->
  transact (executeProposal i) e w = (Revert ProposalNotApproved, w).
Proof.
  intros Hm Hi Hex Hv.
  apply half_plus_one_fits, Z.leb_le in Hm.
  apply Z.leb_gt in Hi. apply Z.ltb_lt in Hv.
  sol_unfold. by sol_rw.
Qed.

Lemma executeProposal_success_votes e w i w' :
  transact (executeProposal i) e w = (Ok tt, w') ->
  memberCount (storage w) / 2 + 1 <= Proposal.votesFor (proposal_at (storage w) i).
Proof.
  sol_cases; intros; simplify_eq; to_Prop; lia.
Qed.

Lemma executeProposal_run e w i :
  is_uint256 (memberCount (storage w)) ->
  i < proposalCount (storage w) ->
  Proposal.executed (proposal_at (storage w) i) = false ->
  memberCount (storage w) / 2 + 1 <= Proposal.votesFor (proposal_at (storage w) i) ->
  Proposal.amount (proposal_at (storage w) i) <= balanceOf (token w) (this w) ->
  executeProposal i e w =
  match transfer_out w i with
  | Transferred t' => (Ok tt, executed_world w i t' (sender e) false)
  | Refused => (Revert SafeERC20FailedOperation, stalled_world w i)
  | Threw reason => (Revert (TokenError reason), stalled_world w i)
  end.
Proof.
  intros Hm Hi Hex Hv Hb.
  apply half_plus_one_fits, Z.leb_le in Hm.
  apply Z.leb_gt in Hi. apply Z.ltb_ge in Hv. apply Z.ltb_ge in Hb.
  unfold transfer_out, executed_world, stalled_world.
  sol_unfold. sol_rw.
  by destruct (transfer _ _ _ _).
Qed.

Lemma autoExecute_run e w i :
  sender e = aiOracle (storage w) ->
  i < proposalCount (storage w) ->
  Proposal.executed (proposal_at (storage w) i) = false ->
  Proposal.amount (proposal_at (storage w) i) <= balanceOf (token w) (this w) ->
  autoExecute i e w =
  match transfer_out w i with
  | Transferred t' => (Ok tt, executed_world w i t' (sender e) true)
  | Refused => (Revert SafeERC20FailedOperation, stalled_world w i)
  | Threw reason => (Revert (TokenError reason), stalled_world w i)
  end.
Proof.
  intros Ho Hi Hex Hb.
  apply Z.eqb_eq in Ho. apply Z.leb_gt in Hi. apply Z.ltb_ge in Hb.
  unfold transfer_out, executed_world, stalled_world.
  sol_unfold. sol_rw.
  by destruct (transfer _ _ _ _).
Qed.

Lemma executeProposal_token_fails e w i :
  is_uint256 (memberCount (storage w)) ->
  i < proposalCount (storage w) ->
  Proposal.executed (proposal_at (storage w) i) = false ->
  memberCount (storage w) / 2 + 1 <= Proposal.votesFor (proposal_at (storage w) i) ->
  Proposal.amount (proposal_at (storage w) i) <= balanceOf (token w) (this w) ->
  token_failed (transfer_out w i) = true ->
  executeProposal i e w
  = (Revert (transfer_error (transfer_out w i)), stalled_world w i).
Proof.
  intros Hm Hi Hex Hv Hb Ht. rewrite executeProposal_run by done.
  by destruct (transfer_out w i).
Qed.

Lemma autoExecute_token_fails e w i :
  sender e = aiOracle (storage w) ->
  i < proposalCount (storage w) ->
  Proposal.executed (proposal_at (storage w) i) = false ->
  Proposal.amount (proposal_at (storage w) i) <= balanceOf (token w) (this w) ->
  token_failed (transfer_out w i) = true ->
  autoExecute i e w
  = (Revert (transfer_error (transfer_out w i)), stalled_world w i).
Proof.
  intros Ho Hi Hex Hb Ht. rewrite autoExecute_run by done.
  by destruct (transfer_out w i).
Qed.

Lemma executeProposal_insufficient e w i :
  is_uint256 (memberCount (storage w)) ->
  i < proposalCount (storage w) ->
  Proposal.executed (proposal_at (storage w) i) = false ->
  memberCount (storage w) / 2 + 1 <= Proposal.votesFor (proposal_at (storage w) i) ->
  balanceOf (token w) (this w) < Proposal.amount (proposal_at (storage w) i) ->
  transact (executeProposal i) e w = (Revert InsufficientTreasuryBalance, w).
Proof.
  intros Hm Hi Hex Hv Hb.
  apply half_plus_one_fits, Z.leb_le in Hm.
  apply Z.leb_gt in Hi. apply Z.ltb_ge in Hv. apply Z.ltb_lt in Hb.
  sol_unfold. by sol_rw.
Qed.

Lemma autoExecute_insufficient e w i :
  sender e = aiOracle (storage w) ->
  i < proposalCount (storage w) ->
  Proposal.executed (proposal_at (storage w) i) = false ->
  balanceOf (token w) (this w) < Proposal.amount (proposal_at (storage w) i) ->
  transact (autoExecute i) e w = (Revert InsufficientTreasuryBalance, w).
Proof.
  intros Ho Hi Hex Hb.
  apply Z.eqb_eq in Ho. apply Z.leb_gt in Hi. apply Z.ltb_lt in Hb.
  sol_unfold. by sol_rw.
Qed.

Lemma executeProposal_poor_fails e w i :
  balanceOf (token w) (this w) < Proposal.amount (proposal_at (storage w) i) ->
  exists err, transact (executeProposal i) e w = (Revert err, w).
Proof.
  intros Hb. apply Z.ltb_lt in Hb.
  sol_cases; eauto.
Qed.

Lemma autoExecute_poor_fails e w i :
  balanceOf (token w) (this w) < Proposal.amount (proposal_at (storage w) i) ->
  exists err, transact (autoExecute i) e w = (Revert err, w).
Proof.
  intros Hb. apply Z.ltb_lt in Hb.
  sol_cases; eauto.
Qed.

Lemma autoExecute_unauthorized e w i :
  sender e <> aiOracle (storage w) ->
  transact (autoExecute i) e w = (Revert UnauthorizedAIExecution, w).
Proof.
  intros Ho. apply Z.eqb_neq in Ho.
  sol_unfold. by sol_rw.
Qed.

Lemma executeProposal_already e w i :
  i < proposalCount (storage w) ->
  Proposal.executed (proposal_at (storage w) i) = true ->
  transact (executeProposal i) e w = (Revert ProposalAlreadyExecuted, w).
Proof.
  intros Hi Hex. apply Z.leb_gt in Hi.
  sol_unfold. by sol_rw.
Qed.

Lemma autoExecute_already e w i :
  sender e = aiOracle (storage w) ->
  i < proposalCount (storage w) ->
  Proposal.executed (proposal_at (storage w) i) = true ->
  transact (autoExecute i) e w = (Revert ProposalAlreadyExecuted, w).
Proof.
  intros Ho Hi Hex. apply Z.eqb_eq in Ho. apply Z.leb_gt in Hi.
  sol_unfold. by sol_rw.
Qed.

(** Whoever calls, an execution call on a proposal already executed fails. *)
Lemma execution_already_fails e w i (c : Call) :
  execution_call i c ->
  i < proposalCount (storage w) ->
  Proposal.executed (proposal_at (storage w) i) = true ->
  exists err, transact (run_call c) e w = (Revert err, w).
Proof.
  intros [-> | ->] Hi Hex; apply Z.leb_gt in Hi; sol_cases; eauto.
Qed.

(** A successful execution call found the proposal allocated and pending,
    and leaves it executed. *)
Lemma execution_success_inv e w i (c : Call) w' :
  execution_call i c ->
  transact (run_call c) e w = (Ok tt, w') ->
  i < proposalCount (storage w) /\
  Proposal.executed (proposal_at (storage w) i) = false /\
  proposalCount (storage w') = proposalCount (storage w) /\
  aiOracle (storage w') = aiOracle (storage w) /\
  Proposal.executed (proposal_at (storage w') i) = true /\
  (c = Call_autoExecute i -> sender e = aiOracle (storage w)).
Proof.
  intros [-> | ->]; sol_cases; intros; simplify_eq; cbn;
    rewrite proposal_at_update_eq; to_Prop; cbn; split_and!; auto with lia;
    discriminate.
Qed.

(** Every run of an execution call writes the flag before it calls the
    token, if it calls it at all. *)
Lemma executeProposal_flag_first e w i :
  transfer_after_flag w i (snd (executeProposal i e w)).
Proof.
  unfold transfer_after_flag.
  sol_cases; auto; right; eexists; (split; [reflexivity|]);
    by rewrite proposal_at_update_eq.
Qed.

Lemma autoExecute_flag_first e w i :
  transfer_after_flag w i (snd (autoExecute i e w)).
Proof.
  unfold transfer_after_flag.
  sol_cases; auto; right; eexists; (split; [reflexivity|]);
    by rewrite proposal_at_update_eq.
Qed.
End Execution.

Section Voting.
Context {T : Type} `{IERC20 T}.
Implicit Types (e : Env) (w : World T) (i : Z).

Lemma vote_already_voted e w i support :
  sload false (isMember (storage w)) (sender e) = true ->
  i < proposalCount (storage w) ->
  Proposal.executed (proposal_at (storage w) i) = false ->
  sload false (Proposal.hasVoted (proposal_at (storage w) i)) (sender e) = true ->
  transact (vote i support) e w = (Revert AlreadyVoted, w).
Proof.
  intros Hm Hi Hex Hv. apply Z.leb_gt in Hi.
  sol_unfold. by sol_rw.
Qed.

Lemma vote_on_executed e w i support :
  sload false (isMember (storage w)) (sender e) = true ->
  i < proposalCount (storage w) ->
  Proposal.executed (proposal_at (storage w) i) = true ->
  transact (vote i support) e w = (Revert ProposalAlreadyExecuted, w).
Proof.
  intros Hm Hi Hex. apply Z.leb_gt in Hi.
  sol_unfold. by sol_rw.
Qed.

Lemma vote_on_executed_fails e w i support :
  i < proposalCount (storage w) ->
  Proposal.executed (proposal_at (storage w) i) = true ->
  exists err, transact (vote i support) e w = (Revert err, w).
Proof.
  intros Hi Hex. apply Z.leb_gt in Hi.
  sol_cases; eauto.
Qed.

Lemma vote_again_fails e w i support :
  i < proposalCount (storage w) ->
  sload false (Proposal.hasVoted (proposal_at (storage w) i)) (sender e) = true ->
  exists err, transact (vote i support) e w = (Revert err, w).
Proof.
  intros Hi Hv. apply Z.leb_gt in Hi.
  sol_cases; eauto.
Qed.

(** A vote that succeeds was cast by a member on an allocated, pending
    proposal; it records the voter and changes neither membership, nor the
    proposal counter, nor the flag. *)
Lemma vote_success_inv e w i support w' :
  transact (vote i support) e w = (Ok tt, w') ->
  i < proposalCount (storage w') /\
  sload false (isMember (storage w')) (sender e) = true /\
  Proposal.executed (proposal_at (storage w') i) = false /\
  sload false (Proposal.hasVoted (proposal_at (storage w') i)) (sender e) = true.
Proof.
  sol_cases; intros; simplify_eq; to_Prop; cbn;
    rewrite !proposal_at_update_eq; cbn; rewrite ?sload_insert_eq; auto.
Qed.

(** What a successful vote writes. *)
Lemma vote_success e w i support :
  sload false (isMember (storage w)) (sender e) = true ->
  i < proposalCount (storage w) ->
  Proposal.executed (proposal_at (storage w) i) = false ->
  sload false (Proposal.hasVoted (proposal_at (storage w) i)) (sender e) = false ->
  Proposal.votesFor (proposal_at (storage w) i) < MAX_UINT256 ->
  Proposal.votesAgainst (proposal_at (storage w) i) < MAX_UINT256 ->
  exists w',
    transact (vote i support) e w = (Ok tt, w') /\
    Proposal.votesFor (proposal_at (storage w') i) =
      Proposal.votesFor (proposal_at (storage w) i) + (if support then 1 else 0) /\
    Proposal.votesAgainst (proposal_at (storage w') i) =
      Proposal.votesAgainst (proposal_at (storage w) i) + (if support then 0 else 1) /\
    sload false (Proposal.hasVoted (proposal_at (storage w') i)) (sender e) = true.
Proof.
  intros Hm Hi Hex Hv Hf Ha. apply Z.leb_gt in Hi.
  assert ((Proposal.votesFor (proposal_at (storage w) i) + 1 <=? MAX_UINT256) = true)
    by (apply Z.leb_le; lia).
  assert ((Proposal.votesAgainst (proposal_at (storage w) i) + 1 <=? MAX_UINT256) = true)
    by (apply Z.leb_le; lia).
  sol_unfold. sol_rw. destruct support; sol_rw; eexists; (split; [reflexivity|]);
    cbn; rewrite !proposal_at_update_eq; cbn; rewrite ?sload_insert_eq;
    split_and!; auto with lia.
Qed.
End Voting.

Section Deposits.
Context {T : Type} `{IERC20 T}.
Implicit Types (e : Env) (w : World T).

Lemma deposit_not_member e w a :
  sload false (isMember (storage w)) (sender e) = false ->
  transact (deposit a) e w = (Revert NotMember, w).
Proof. intros Hm. sol_unfold. by sol_rw. Qed.

Lemma deposit_zero e w :
  sload false (isMember (storage w)) (sender e) = true ->
  transact (deposit 0) e w = (Revert InvalidAmount, w).
Proof. intros Hm. sol_unfold. by sol_rw. Qed.

(** The run of [deposit] past its guards: both balances are written, then
    the token is called. *)
Lemma deposit_run e w a :
  let s := storage w in
  let who := sender e in
  let s' := set_totalDeposits (totalDeposits s + a)
              (set_deposits (<[who := sload 0 (deposits s) who + a]> (deposits s)) s) in
  sload false (isMember s) who = true ->
  a <> 0 ->
  sload 0 (deposits s) who + a <= MAX_UINT256 ->
  totalDeposits s + a <= MAX_UINT256 ->
  deposit a e w =
  match transferFrom (token w) (this w) who (this w) a with
  | Transferred t' =>
      (Ok tt, mkWorld (this w) s' t' (events w ++ [Deposited who a])
                (calls w ++ [CallTransferFrom who (this w) a s']))
  | Refused =>
      (Revert SafeERC20FailedOperation,
       mkWorld (this w) s' (token w) (events w)
         (calls w ++ [CallTransferFrom who (this w) a s']))
  | Threw reason =>
      (Revert (TokenError reason),
       mkWorld (this w) s' (token w) (events w)
         (calls w ++ [CallTransferFrom who (this w) a s']))
  end.
Proof.
  cbv zeta. intros Hm Ha Hd Ht.
  apply Z.eqb_neq in Ha. apply Z.leb_le in Hd. apply Z.leb_le in Ht.
  sol_unfold. sol_rw.
  by destruct (transferFrom _ _ _ _ _).
Qed.

Lemma deposit_transfer_fails e w a :
  token_failed (transferFrom (token w) (this w) (sender e) (this w) a) = true ->
  exists err, transact (deposit a) e w = (Revert err, w).
Proof.
  intros Ht.
  destruct (transferFrom (token w) (this w) (sender e) (this w) a) eqn:Hr;
    [discriminate | |]; sol_cases; eauto.
Qed.
End Deposits.

Section Proposing.
Context {T : Type} `{IERC20 T}.
Implicit Types (e : Env) (w : World T).

Lemma createProposal_not_member e w r a d :
  sload false (isMember (storage w)) (sender e) = false ->
  transact (createProposal r a d) e w = (Revert NotMember, w).
Proof. intros Hm. sol_unfold. by sol_rw. Qed.

Lemma createProposal_no_recipient e w a d :
  sload false (isMember (storage w)) (sender e) = true ->
  transact (createProposal 0 a d) e w = (Revert InvalidRecipient, w).
Proof. intros Hm. sol_unfold. by sol_rw. Qed.

Lemma createProposal_zero_amount e w r d :
  sload false (isMember (storage w)) (sender e) = true ->
  r <> 0 ->
  transact (createProposal r 0 d) e w = (Revert InvalidAmount, w).
Proof. intros Hm Hr. apply Z.eqb_neq in Hr. sol_unfold. by sol_rw. Qed.

Lemma createProposal_success e w r a d :
  let s := storage w in
  wf_storage s ->
  sload false (isMember s) (sender e) = true ->
  r <> 0 -> a <> 0 ->
  proposalCount s < MAX_UINT256 ->
  exists w',
    transact (createProposal r a d) e w = (Ok (proposalCount s), w') /\
    proposalCount (storage w') = proposalCount s + 1 /\
    proposal_at (storage w') (proposalCount s) =
      Proposal.mk (proposalCount s) (sender e) r a d 0 0 ∅ false (timestamp e) /\
    (forall j, j <> proposalCount s ->
               proposal_at (storage w') j = proposal_at s j) /\
    deposits (storage w') = deposits s /\
    totalDeposits (storage w') = totalDeposits s /\
    token w' = token w /\
    events w' = events w ++
      [ProposalCreated (proposalCount s) (sender e) r a d].
Proof.
  cbv zeta. intros Hwf Hm Hr Ha Hn.
  pose proof (proposal_at_fresh _ (proposalCount (storage w)) Hwf ltac:(lia)) as Hz.
  apply Z.eqb_neq in Hr. apply Z.eqb_neq in Ha.
  assert ((proposalCount (storage w) + 1 <=? MAX_UINT256) = true)
    by (apply Z.leb_le; lia).
  sol_unfold. sol_rw. eexists; split; [reflexivity|]. cbn.
  split_and!; auto.
  - rewrite !proposal_at_update_eq. cbn.
    change (proposal_at _ (proposalCount (storage w)))
      with (proposal_at (storage w) (proposalCount (storage w))).
    by rewrite Hz.
  - intros j Hj. by rewrite !proposal_at_update_ne.
Qed.

Lemma createProposal_returns_count e w r a d n w' :
  transact (createProposal r a d) e w = (Ok n, w') ->
  n = proposalCount (storage w) /\ proposalCount (storage w') = n + 1.
Proof.
  sol_cases; intros; simplify_eq; cbn; auto.
Qed.
End Proposing.

(** ** What no transaction undoes *)

(** From one storage to a later one: the proposal counter does not go down,
    an executed flag stays set, a recorded vote stays recorded. *)
Definition storage_grows (s s' : Storage) : Prop :=
  proposalCount s <= proposalCount s' /\
  (forall i, Proposal.executed (proposal_at s i) = true ->
             Proposal.executed (proposal_at s' i) = true) /\
  (forall i x, sload false (Proposal.hasVoted (proposal_at s i)) x = true ->
               sload false (Proposal.hasVoted (proposal_at s' i)) x = true).

Lemma storage_grows_refl s : storage_grows s s.
Proof. unfold storage_grows. auto with lia. Qed.

Lemma storage_grows_trans s1 s2 s3 :
  storage_grows s1 s2 -> storage_grows s2 s3 -> storage_grows s1 s3.
Proof.
  intros (? & ? & ?) (? & ? & ?). unfold storage_grows. split_and!; eauto with lia.
Qed.

Ltac storage_simp :=
  repeat (cbn in *;
          first [ rewrite proposal_at_update
                | rewrite sload_insert
                | case_decide; subst ]).

Section Invariants.
Context {T : Type} `{IERC20 T}.
Implicit Types (e : Env) (w : World T) (i : Z).

Lemma transaction_grows e (c : Call) w :
  storage_grows (storage w) (storage (snd (transact (run_call c) e w))).
Proof.
  destruct c; sol_cases; try apply storage_grows_refl;
    to_Prop; (split_and!; [cbn; lia | intros j | intros j x]);
    storage_simp; auto; congruence.
Qed.

Lemma step_grows w w' : step w w' -> storage_grows (storage w) (storage w').
Proof.
  destruct 1; [apply transaction_grows | apply storage_grows_refl].
Qed.

Lemma later_grows w w' : later w w' -> storage_grows (storage w) (storage w').
Proof.
  induction 1 as [|w1 w2 w3 Hstep _ IH]; [apply storage_grows_refl|].
  eapply storage_grows_trans; [by apply step_grows | done].
Qed.

Lemma transaction_wf e (c : Call) w :
  wf_storage (storage w) -> wf_storage (storage (snd (transact (run_call c) e w))).
Proof.
  intros (Hm & Hp & Hfresh).
  destruct c; sol_cases; try done; to_Prop;
    (split_and!; [unfold is_uint256 in *; cbn; lia
                 | unfold is_uint256 in *; cbn; lia
                 | intros j Hj; cbn in *;
                   rewrite ?lookup_insert_ne by lia; apply Hfresh; lia]).
Qed.

Lemma step_wf w w' : step w w' -> wf_storage (storage w) -> wf_storage (storage w').
Proof. destruct 1; [apply transaction_wf | done]. Qed.

Lemma later_wf w w' : later w w' -> wf_storage (storage w) -> wf_storage (storage w').
Proof. induction 1; eauto using step_wf. Qed.

Lemma deployed_wf w : deployed w -> wf_storage (storage w).
Proof.
  intros (a & o & Hc). unfold constructor in Hc.
  repeat case_match; simplify_eq. rewrite <- Hc.
  pose proof MAX_UINT256_pos.
  unfold wf_storage, is_uint256; cbn. split_and!; try lia. intros; apply lookup_empty.
Qed.

Lemma reachable_wf w : reachable w -> wf_storage (storage w).
Proof. intros (w0 & Hd & Hl). eauto using later_wf, deployed_wf. Qed.

Lemma play_later (script : list (Env * Call)) w : later w (play script w).
Proof.
  revert w. induction script as [|[e c] script IH]; intros w; [apply rtc_refl|].
  cbn. eapply rtc_l; [apply (step_transaction e c)|apply IH].
Qed.

Lemma later_trans w1 w2 w3 : later w1 w2 -> later w2 w3 -> later w1 w3.
Proof. apply rtc_trans. Qed.

Lemma reachable_later w w' : reachable w -> later w w' -> reachable w'.
Proof. intros (w0 & ? & ?) ?. exists w0. eauto using later_trans. Qed.
End Invariants.

(** ** Membership: the counter counts, the array lists *)

Lemma current_members_lookup (s : Storage) (m : Z) :
  current_members s !! m = Some true <-> sload false (isMember s) m = true.
Proof.
  unfold current_members, sload. rewrite map_lookup_filter_Some. cbn.
  destruct (isMember s !! m) as [[]|]; cbn; (split; [by intros [? _] | done]).
Qed.

Lemma current_members_absent (s : Storage) (m : Z) :
  sload false (isMember s) m = false -> current_members s !! m = None.
Proof.
  unfold current_members, sload. intros Hm.
  apply map_lookup_filter_None. right. intros x Hx. rewrite Hx in Hm. cbn in *.
  congruence.
Qed.

Lemma current_members_add (s : Storage) (m : Z) :
  sload false (isMember s) m = false ->
  size (filter (fun kv : Z * bool => kv.2 = true) (<[m := true]> (isMember s)))
  = S (size (current_members s)).
Proof.
  intros Hm. rewrite map_filter_insert_True by done.
  apply map_size_insert_None. by apply current_members_absent.
Qed.

Lemma current_members_remove (s : Storage) (m : Z) :
  sload false (isMember s) m = true ->
  S (size (filter (fun kv : Z * bool => kv.2 = true) (<[m := false]> (isMember s))))
  = size (current_members s).
Proof.
  intros Hm. apply current_members_lookup in Hm.
  rewrite map_filter_insert_False by (cbn; congruence).
  rewrite map_filter_delete. fold (current_members s).
  rewrite map_size_delete, Hm.
  destruct (size (current_members s)) eqn:Hsz; [|done].
  apply map_size_empty_iff in Hsz. rewrite Hsz in Hm. by rewrite lookup_empty in Hm.
Qed.

Lemma counted_member_positive (s : Storage) (m : Z) :
  members_counted s -> sload false (isMember s) m = true -> 1 <= memberCount s.
Proof.
  intros Hc Hm. rewrite Hc. pose proof (current_members_remove s m Hm). lia.
Qed.

Section Member_invariants.
Context {T : Type} `{IERC20 T}.
Implicit Types (e : Env) (w : World T).

Lemma transaction_counted e (c : Call) w :
  members_counted (storage w) ->
  members_counted (storage (snd (transact (run_call c) e w))).
Proof.
  unfold members_counted. intros Hc.
  destruct c; sol_cases; try done; to_Prop; unfold current_members at 1; cbn.
  - rewrite current_members_add by done. lia.
  - pose proof (current_members_remove (storage w) _member ltac:(done)). lia.
Qed.

Lemma transaction_listed e (c : Call) w :
  members_listed (storage w) ->
  members_listed (storage (snd (transact (run_call c) e w))).
Proof.
  unfold members_listed. intros Hl.
  destruct c; sol_cases; try done; to_Prop; cbn; intros m;
    rewrite sload_insert; case_decide; subst;
    rewrite ?elem_of_app, ?list_elem_of_singleton; auto; done.
Qed.

Lemma reachable_members w :
  reachable w -> members_counted (storage w) /\ members_listed (storage w).
Proof.
  intros (w0 & (a & o & Hc) & Hl).
  assert (members_counted (storage w0) /\ members_listed (storage w0)) as Hinit.
  { unfold constructor in Hc. repeat case_match; simplify_eq. rewrite <- Hc.
    split; [reflexivity|]. intros m. unfold sload. cbn. by rewrite lookup_empty. }
  clear Hc. induction Hl as [|w1 w2 w3 Hstep _ IH]; [done|].
  apply IH. destruct Hstep; [|done].
  destruct Hinit. split; [by apply transaction_counted | by apply transaction_listed].
Qed.

Lemma removeMember_success e w m :
  let s := storage w in
  sender e = owner s ->
  sload false (isMember s) m = true ->
  1 <= memberCount s ->
  transact (removeMember m) e w =
  (Ok tt, mkWorld (this w)
            (set_memberCount (memberCount s - 1)
               (set_isMember (<[m := false]> (isMember s)) s))
            (token w) (events w ++ [MemberRemoved m]) (calls w)).
Proof.
  cbv zeta. intros Ho Hm Hn.
  apply Z.eqb_eq in Ho. apply Z.leb_le in Hn.
  sol_unfold. by sol_rw.
Qed.

Lemma addMember_success e w m :
  let s := storage w in
  sender e = owner s ->
  sload false (isMember s) m = false ->
  memberCount s < MAX_UINT256 ->
  transact (addMember m) e w =
  (Ok tt, mkWorld (this w)
            (set_memberCount (memberCount s + 1)
               (set_members (members s ++ [m])
                  (set_isMember (<[m := true]> (isMember s)) s)))
            (token w) (events w ++ [MemberAdded m]) (calls w)).
Proof.
  cbv zeta. intros Ho Hm Hn.
  apply Z.eqb_eq in Ho.
  assert ((memberCount (storage w) + 1 <=? MAX_UINT256) = true)
    by (apply Z.leb_le; lia).
  sol_unfold. by sol_rw.
Qed.
End Member_invariants.

(** ** Example worlds are reachable *)

Lemma genesis_deployed : deployed Example.genesis.
Proof. exists Example.mnee, Example.admin. reflexivity. Qed.

Lemma played_reachable (script : list (Env * Call)) :
  reachable (play script Example.genesis).
Proof. exists Example.genesis. split; [apply genesis_deployed | apply play_later]. Qed.

(** Closed goals about example worlds, by evaluation. *)
Ltac crunch :=
  unfold is_uint256;
  repeat match goal with |- _ /\ _ => split end;
  vm_compute; try reflexivity; try discriminate; try (intros; discriminate).

Section Votes_ignored.
Context {T : Type} `{IERC20 T}.

(** The oracle path reads no tally and no vote record. *)
Lemma autoExecute_ignores_votes (e : Env) (w : World T) (i : Z) :
  fst (transact (autoExecute i) e (with_storage (erase_votes (storage w)) w)) =
  fst (transact (autoExecute i) e w).
Proof.
  sol_unfold. unfold with_storage.
  repeat (cbn; rewrite ?proposal_at_update_eq, ?proposal_at_erase_votes; cbn;
          try match goal with
              | |- context [if ?c then _ else _] =>
                  lazymatch c with
                  | context [if _ then _ else _] => fail
                  | _ => destruct c eqn:?
                  end
              | |- context [match ?c with Transferred _ => _ | _ => _ end] =>
                  destruct c eqn:?
              end); done.
Qed.
End Votes_ignored.

(** * The claims *)

Section Claims.
Context {T : Type} `{IERC20 T}.
Implicit Types (e : Env) (w : World T) (i : Z).

(** C2. [executeProposal] succeeds only if the proposal's [votesFor] reaches
    [memberCount / 2 + 1], the member count being the one in storage when the
    call is made; on an allocated, pending proposal whose [votesFor] is below
    that number (so also when it is exactly [memberCount / 2]) the call
    reverts with [ProposalNotApproved] and the world is unchanged. *)
Theorem executeProposal_live_majority e w i :
  let s := storage w in
  let p := proposal_at s i in
  (forall w', transact (executeProposal i) e w = (Ok tt, w') ->
              memberCount s / 2 + 1 <= Proposal.votesFor p) /\
  (is_uint256 (memberCount s) -> i < proposalCount s ->
   Proposal.executed p = false ->
   Proposal.votesFor p < memberCount s / 2 + 1 ->
   transact (executeProposal i) e w = (Revert ProposalNotApproved, w)) /\
  (is_uint256 (memberCount s) -> i < proposalCount s ->
   Proposal.executed p = false ->
   Proposal.votesFor p = memberCount s / 2 ->
   transact (executeProposal i) e w = (Revert ProposalNotApproved, w)).
Proof.
  cbv zeta. split_and!.
  - intros w'. apply executeProposal_success_votes.
  - apply executeProposal_not_approved.
  - intros Hm Hi Hex Hv. apply executeProposal_not_approved; auto. lia.
Qed.

(** C7. When the proposal asks for more than the token reports as the
    treasury's balance, [executeProposal] and [autoExecute] fail and leave the
    world, and so the proposal's [executed] flag, as they were; the error is
    [InsufficientTreasuryBalance] whenever the call gets as far as the
    balance guard (proposal allocated and pending; majority reached on the
    manual path, caller the oracle on the other). *)
Theorem execution_insufficient_balance e w i :
  let s := storage w in
  let p := proposal_at s i in
  balanceOf (token w) (this w) < Proposal.amount p ->
  ((exists err, transact (executeProposal i) e w = (Revert err, w)) /\
   (exists err, transact (autoExecute i) e w = (Revert err, w))) /\
  (i < proposalCount s -> Proposal.executed p = false ->
   (is_uint256 (memberCount s) ->
    memberCount s / 2 + 1 <= Proposal.votesFor p ->
    transact (executeProposal i) e w = (Revert InsufficientTreasuryBalance, w)) /\
   (sender e = aiOracle s ->
    transact (autoExecute i) e w = (Revert InsufficientTreasuryBalance, w)) /\
   Proposal.executed
     (proposal_at (storage (snd (transact (executeProposal i) e w))) i) = false /\
   Proposal.executed
     (proposal_at (storage (snd (transact (autoExecute i) e w))) i) = false).
Proof.
  cbv zeta. intros Hb. split_and!.
  - by apply executeProposal_poor_fails.
  - by apply autoExecute_poor_fails.
  - intros Hi Hex. split_and!.
    + intros. by apply executeProposal_insufficient.
    + intros. by apply autoExecute_insufficient.
    + destruct (executeProposal_poor_fails e w i Hb) as [err ->]. done.
    + destruct (autoExecute_poor_fails e w i Hb) as [err ->]. done.
Qed.

(** C4, as the code has it.  [autoExecute] reverts with
    [UnauthorizedAIExecution] for every caller but the registered oracle.
    Called by the oracle on an allocated, pending proposal whose amount the
    treasury's token balance covers, it succeeds when the token's transfer to
    the recipient goes through, and when the token refuses the transfer it
    reverts and leaves the world as it was.  The votes play no part: the
    outcome is the same in the world where every tally is zero and nobody has
    voted. *)
Theorem autoExecute_oracle_without_votes e w i :
  let s := storage w in
  let p := proposal_at s i in
  (sender e <> aiOracle s ->
   transact (autoExecute i) e w = (Revert UnauthorizedAIExecution, w)) /\
  (sender e = aiOracle s -> i < proposalCount s ->
   Proposal.executed p = false ->
   Proposal.amount p <= balanceOf (token w) (this w) ->
   (forall t', transfer_out w i = Transferred t' ->
      transact (autoExecute i) e w
      = (Ok tt, executed_world w i t' (sender e) true)) /\
   (token_failed (transfer_out w i) = true ->
      transact (autoExecute i) e w
      = (Revert (transfer_error (transfer_out w i)), w))) /\
  fst (transact (autoExecute i) e (with_storage (erase_votes s) w)) =
  fst (transact (autoExecute i) e w).
Proof.
  cbv zeta. split_and!.
  - apply autoExecute_unauthorized.
  - intros Ho Hi Hex Hb. split.
    + intros t' Ht.
      unfold transact. rewrite autoExecute_run by done. by rewrite Ht.
    + intros Ht. unfold transact.
      by rewrite autoExecute_token_fails by done.
  - apply autoExecute_ignores_votes.
Qed.

(** C8, as the code has it.  On both execution paths the [executed] flag is
    written before the token's transfer is called: whatever the run adds to
    the record of external calls is one transfer made from a storage in which
    the flag is set.  If that transfer fails, the call reverts, with the
    token's own error if the token reverted and with
    [SafeERC20FailedOperation] if it answered [false], and the whole world is
    as before the call: the flag is clear again and the token has not
    moved. *)
Theorem execution_flag_before_transfer_rolled_back e w i :
  let s := storage w in
  let p := proposal_at s i in
  (transfer_after_flag w i (snd (executeProposal i e w)) /\
   transfer_after_flag w i (snd (autoExecute i e w))) /\
  (i < proposalCount s -> Proposal.executed p = false ->
   Proposal.amount p <= balanceOf (token w) (this w) ->
   token_failed (transfer_out w i) = true ->
   (is_uint256 (memberCount s) ->
    memberCount s / 2 + 1 <= Proposal.votesFor p ->
    snd (executeProposal i e w) = stalled_world w i /\
    transact (executeProposal i) e w
    = (Revert (transfer_error (transfer_out w i)), w) /\
    Proposal.executed
      (proposal_at (storage (snd (transact (executeProposal i) e w))) i) = false) /\
   (sender e = aiOracle s ->
    snd (autoExecute i e w) = stalled_world w i /\
    transact (autoExecute i) e w
    = (Revert (transfer_error (transfer_out w i)), w) /\
    Proposal.executed
      (proposal_at (storage (snd (transact (autoExecute i) e w))) i) = false)).
Proof.
  cbv zeta.
  split; [split; [apply executeProposal_flag_first | apply autoExecute_flag_first]|].
  intros Hi Hex Hb Ht. split.
  - intros Hm Hv. unfold transact.
    rewrite executeProposal_token_fails by done. done.
  - intros Ho. unfold transact.
    rewrite autoExecute_token_fails by done. done.
Qed.

(** C1. Once an execution call on proposal [i] has succeeded, in every world
    that follows, whatever happened in between, [executeProposal i] reverts
    with [ProposalAlreadyExecuted] for every caller, [autoExecute i] reverts
    for every caller, with [ProposalAlreadyExecuted] when the caller is the
    oracle, and the world is unchanged.  So of two execution calls on [i]
    that would each succeed from a world, whichever goes first succeeds and
    the other then reverts with [ProposalAlreadyExecuted]. *)
Theorem execution_at_most_once e w i (c : Call) w1 :
  execution_call i c ->
  transact (run_call c) e w = (Ok tt, w1) ->
  (forall w2 e', later w1 w2 ->
     transact (executeProposal i) e' w2 = (Revert ProposalAlreadyExecuted, w2) /\
     (exists err, transact (autoExecute i) e' w2 = (Revert err, w2)) /\
     (sender e' = aiOracle (storage w2) ->
      transact (autoExecute i) e' w2 = (Revert ProposalAlreadyExecuted, w2))) /\
  (forall e' (c' : Call) w1',
     execution_call i c' ->
     transact (run_call c') e' w = (Ok tt, w1') ->
     transact (run_call c') e' w1 = (Revert ProposalAlreadyExecuted, w1) /\
     transact (run_call c) e w1' = (Revert ProposalAlreadyExecuted, w1')).
Proof.
  intros Hc Hrun.
  destruct (execution_success_inv e w i c w1 Hc Hrun)
    as (Hi & Hpending & Hcount & Horacle & Hdone & Hauth).
  split.
  - intros w2 e' Hlater.
    destruct (later_grows w1 w2 Hlater) as (Hn & Hflag & _).
    specialize (Hflag i Hdone).
    assert (i < proposalCount (storage w2)) by lia.
    split_and!.
    + by apply executeProposal_already.
    + apply (execution_already_fails e' w2 i (Call_autoExecute i)); auto.
      by right.
    + intros. by apply autoExecute_already.
  - intros e' c' w1' Hc' Hrun'.
    destruct (execution_success_inv e' w i c' w1' Hc' Hrun')
      as (_ & _ & Hcount' & Horacle' & Hdone' & Hauth').
    split.
    + destruct Hc' as [-> | ->]; cbn [run_call].
      * apply executeProposal_already; [lia | done].
      * apply autoExecute_already; [rewrite Horacle; auto | lia | done].
    + destruct Hc as [-> | ->]; cbn [run_call].
      * apply executeProposal_already; [lia | done].
      * apply autoExecute_already; [rewrite Horacle'; auto | lia | done].
Qed.
End Claims.

Lemma executeProposal_live_majority_witness :
  transact (executeProposal 0) (mkEnv Example.carol 0) Example.one_vote
  = (Revert ProposalNotApproved, Example.one_vote) /\
  Proposal.votesFor (proposal_at (storage Example.one_vote) 0) = 1 /\
  memberCount (storage Example.one_vote) / 2 + 1 = 2.
Proof.
  split; [|crunch].
  exact (proj1 (proj2 (executeProposal_live_majority
                         (mkEnv Example.carol 0) Example.one_vote 0))
           ltac:(crunch) ltac:(crunch) ltac:(crunch) ltac:(crunch)).
Defined.

Lemma execution_insufficient_balance_witness :
  transact (executeProposal 1) (mkEnv Example.carol 0) Example.approved
  = (Revert InsufficientTreasuryBalance, Example.approved) /\
  transact (autoExecute 1) (mkEnv Example.oracle_bot 0) Example.approved
  = (Revert InsufficientTreasuryBalance, Example.approved).
Proof.
  assert (Hb : balanceOf (token Example.approved) (this Example.approved)
               < Proposal.amount (proposal_at (storage Example.approved) 1))
    by crunch.
  assert (Hi : 1 < proposalCount (storage Example.approved)) by crunch.
  assert (Hex : Proposal.executed (proposal_at (storage Example.approved) 1) = false)
    by crunch.
  split.
  - exact (proj1 (proj2 (execution_insufficient_balance (mkEnv Example.carol 0)
                           Example.approved 1 Hb) Hi Hex)
             ltac:(crunch) ltac:(crunch)).
  - exact (proj1 (proj2 (proj2 (execution_insufficient_balance
                                  (mkEnv Example.oracle_bot 0)
                                  Example.approved 1 Hb) Hi Hex))
             ltac:(crunch)).
Defined.

Lemma autoExecute_oracle_without_votes_witness :
  Proposal.votesFor (proposal_at (storage Example.proposed) 0) = 0 /\
  fst (transact (autoExecute 0) (mkEnv Example.oracle_bot 0) Example.proposed)
  = Ok tt /\
  transact (autoExecute 0) (mkEnv Example.oracle_bot 0)
    (Example.soften (Example.pause Example.proposed))
  = (Revert SafeERC20FailedOperation,
     Example.soften (Example.pause Example.proposed)) /\
  transact (autoExecute 0) (mkEnv Example.mallory 0) Example.proposed
  = (Revert UnauthorizedAIExecution, Example.proposed).
Proof.
  pose proof (autoExecute_oracle_without_votes
                (mkEnv Example.oracle_bot 0) Example.proposed 0) as (_ & Hok & _).
  pose proof (autoExecute_oracle_without_votes
                (mkEnv Example.oracle_bot 0)
                (Example.soften (Example.pause Example.proposed)) 0)
    as (_ & Hsoft & _).
  pose proof (autoExecute_oracle_without_votes
                (mkEnv Example.mallory 0) Example.proposed 0) as (Hno & _ & _).
  split_and!.
  - crunch.
  - destruct (transfer_out Example.proposed 0) as [t'| |reason] eqn:Ht;
      [|by vm_compute in Ht|by vm_compute in Ht].
    rewrite (proj1 (Hok ltac:(crunch) ltac:(crunch) ltac:(crunch) ltac:(crunch))
               t' eq_refl).
    reflexivity.
  - assert (Herr : transfer_error
                     (transfer_out (Example.soften (Example.pause Example.proposed)) 0)
                   = SafeERC20FailedOperation) by crunch.
    rewrite <- Herr.
    exact (proj2 (Hsoft ltac:(crunch) ltac:(crunch) ltac:(crunch) ltac:(crunch))
             ltac:(crunch)).
  - exact (Hno ltac:(crunch)).
Defined.

(** C4 as it is worded fails: with the token paused, the oracle's
    [autoExecute] of an allocated, pending proposal with no votes, whose
    amount the treasury's balance covers, does not succeed. *)
Lemma autoExecute_needs_the_token :
  let w := Example.pause Example.proposed in
  let oracle := mkEnv Example.oracle_bot 0 in
  sender oracle = aiOracle (storage w) /\
  0 < proposalCount (storage w) /\
  Proposal.executed (proposal_at (storage w) 0) = false /\
  Proposal.votesFor (proposal_at (storage w) 0) = 0 /\
  Proposal.amount (proposal_at (storage w) 0) <= balanceOf (token w) (this w) /\
  transact (autoExecute 0) oracle w = (Revert (TokenError "EnforcedPause"), w).
Proof. crunch. Qed.

(** C8 as it is worded fails: with the token paused, an approved proposal's
    manual execution and its execution by the oracle both revert, and the
    proposal is not left marked executed. *)
Lemma failed_transfer_clears_flag :
  let w := Example.pause Example.approved in
  token_failed (transfer_out w 0) = true /\
  fst (transact (executeProposal 0) (mkEnv Example.carol 0) w)
  = Revert (TokenError "EnforcedPause") /\
  Proposal.executed
    (proposal_at
       (storage (snd (transact (executeProposal 0) (mkEnv Example.carol 0) w))) 0)
  = false /\
  fst (transact (autoExecute 0) (mkEnv Example.oracle_bot 0) w)
  = Revert (TokenError "EnforcedPause") /\
  Proposal.executed
    (proposal_at
       (storage (snd (transact (autoExecute 0) (mkEnv Example.oracle_bot 0) w))) 0)
  = false.
Proof. crunch. Qed.

Lemma execution_flag_before_transfer_rolled_back_witness :
  let w := Example.pause Example.approved in
  let w' := Example.soften (Example.pause Example.approved) in
  (snd (executeProposal 0 (mkEnv Example.carol 0) w) = stalled_world w 0 /\
   transact (executeProposal 0) (mkEnv Example.carol 0) w
   = (Revert (TokenError "EnforcedPause"), w)) /\
  (snd (autoExecute 0 (mkEnv Example.oracle_bot 0) w') = stalled_world w' 0 /\
   transact (autoExecute 0) (mkEnv Example.oracle_bot 0) w'
   = (Revert SafeERC20FailedOperation, w')).
Proof.
  cbv zeta.
  assert (Herr : transfer_error (transfer_out (Example.pause Example.approved) 0)
                 = TokenError "EnforcedPause") by crunch.
  assert (Herr' : transfer_error
                    (transfer_out (Example.soften (Example.pause Example.approved)) 0)
                  = SafeERC20FailedOperation) by crunch.
  rewrite <- Herr, <- Herr'.
  split.
  - destruct (proj1 (proj2 (execution_flag_before_transfer_rolled_back
                              (mkEnv Example.carol 0)
                              (Example.pause Example.approved) 0)
                       ltac:(crunch) ltac:(crunch) ltac:(crunch) ltac:(crunch))
                ltac:(crunch) ltac:(crunch)) as (Hraw & Hrun & _).
    split; [exact Hraw | exact Hrun].
  - destruct (proj2 (proj2 (execution_flag_before_transfer_rolled_back
                              (mkEnv Example.oracle_bot 0)
                              (Example.soften (Example.pause Example.approved)) 0)
                       ltac:(crunch) ltac:(crunch) ltac:(crunch) ltac:(crunch))
                ltac:(crunch)) as (Hraw & Hrun & _).
    split; [exact Hraw | exact Hrun].
Defined.

Lemma execution_at_most_once_witness :
  transact (executeProposal 0) (mkEnv Example.alice 0) Example.paid
  = (Revert ProposalAlreadyExecuted, Example.paid) /\
  transact (autoExecute 0) (mkEnv Example.oracle_bot 0) Example.paid
  = (Revert ProposalAlreadyExecuted, Example.paid).
Proof.
  assert (Hrun : transact (run_call (Call_executeProposal 0))
                   (Example.by_ Example.carol (Call_executeProposal 0)).1
                   Example.approved = (Ok tt, Example.paid)) by crunch.
  pose proof (execution_at_most_once _ _ 0 _ _ (or_introl eq_refl) Hrun)
    as (Hever & _).
  split.
  - exact (proj1 (Hever Example.paid (mkEnv Example.alice 0)
                    (rtc_refl _ _))).
  - exact (proj2 (proj2 (Hever Example.paid (mkEnv Example.oracle_bot 0)
                           (rtc_refl _ _))) ltac:(crunch)).
Defined.

Section Claims_voting_deposits.
Context {T : Type} `{IERC20 T}.
Implicit Types (e : Env) (w : World T) (i : Z).

(** C5. After a successful vote by an identity on a proposal, a further vote
    by the same identity on that proposal, for or against, reverts with
    [AlreadyVoted]; so does it in every later world in which the identity is
    still a member and the proposal still pending, and in every later world
    it fails.  A member's vote on an executed proposal reverts with
    [ProposalAlreadyExecuted], and nobody's vote on it succeeds.  A vote that
    fails leaves the world, hence both tallies and every has-voted record, as
    they were. *)
Theorem vote_once_and_frozen e w i support :
  let s := storage w in
  (forall w1, transact (vote i support) e w = (Ok tt, w1) ->
     (forall again, transact (vote i again) e w1 = (Revert AlreadyVoted, w1)) /\
     (forall w2 e' again, later w1 w2 -> sender e' = sender e ->
        (exists err, transact (vote i again) e' w2 = (Revert err, w2)) /\
        (sload false (isMember (storage w2)) (sender e) = true ->
         Proposal.executed (proposal_at (storage w2) i) = false ->
         transact (vote i again) e' w2 = (Revert AlreadyVoted, w2)))) /\
  (i < proposalCount s -> Proposal.executed (proposal_at s i) = true ->
     (exists err, transact (vote i support) e w = (Revert err, w)) /\
     (sload false (isMember s) (sender e) = true ->
      transact (vote i support) e w = (Revert ProposalAlreadyExecuted, w))) /\
  (forall err w', transact (vote i support) e w = (Revert err, w') ->
     w' = w /\
     forall j, Proposal.votesFor (proposal_at (storage w') j)
               = Proposal.votesFor (proposal_at s j) /\
               Proposal.votesAgainst (proposal_at (storage w') j)
               = Proposal.votesAgainst (proposal_at s j) /\
               Proposal.hasVoted (proposal_at (storage w') j)
               = Proposal.hasVoted (proposal_at s j)).
Proof.
  cbv zeta. split_and!.
  - intros w1 Hrun.
    destruct (vote_success_inv e w i support w1 Hrun) as (Hi & Hm & Hex & Hv).
    split.
    + intros again. by apply vote_already_voted.
    + intros w2 e' again Hlater He'.
      destruct (later_grows w1 w2 Hlater) as (Hn & _ & Hvoted).
      specialize (Hvoted i (sender e) Hv).
      assert (i < proposalCount (storage w2)) by lia.
      split.
      * apply vote_again_fails; [done | by rewrite He'].
      * intros. apply vote_already_voted; rewrite ?He'; done.
  - intros Hi Hex. split.
    + by apply vote_on_executed_fails.
    + intros. by apply vote_on_executed.
  - intros err w' Hrun. apply transact_revert in Hrun. by subst.
Qed.

(** C6. [deposit] reverts with [NotMember] for a caller who is not a member
    and with [InvalidAmount] for a member's zero amount.  For a member and a
    positive amount that both balances can take, a successful token transfer
    makes the call succeed with [deposits] of the caller and [totalDeposits]
    each larger by exactly the amount and every other deposit untouched.  If
    the token transfer fails the call fails, with the token's own error if
    the token reverted and with [SafeERC20FailedOperation] if it answered
    [false], and the world is unchanged: the balances written before the
    transfer are undone. *)
Theorem deposit_all_or_nothing e w a :
  let s := storage w in
  let who := sender e in
  (sload false (isMember s) who = false ->
   transact (deposit a) e w = (Revert NotMember, w)) /\
  (sload false (isMember s) who = true -> a = 0 ->
   transact (deposit a) e w = (Revert InvalidAmount, w)) /\
  (sload false (isMember s) who = true -> 0 < a ->
   sload 0 (deposits s) who + a <= MAX_UINT256 ->
   totalDeposits s + a <= MAX_UINT256 ->
   (forall t', transferFrom (token w) (this w) who (this w) a = Transferred t' ->
      exists w', transact (deposit a) e w = (Ok tt, w') /\
        sload 0 (deposits (storage w')) who = sload 0 (deposits s) who + a /\
        totalDeposits (storage w') = totalDeposits s + a /\
        (forall x, x <> who ->
           sload 0 (deposits (storage w')) x = sload 0 (deposits s) x) /\
        token w' = t') /\
   (token_failed (transferFrom (token w) (this w) who (this w) a) = true ->
      transact (deposit a) e w
      = (Revert (transfer_error (transferFrom (token w) (this w) who (this w) a)), w) /\
      totalDeposits (storage (snd (deposit a e w))) = totalDeposits s + a)) /\
  (token_failed (transferFrom (token w) (this w) who (this w) a) = true ->
   exists err, transact (deposit a) e w = (Revert err, w)).
Proof.
  cbv zeta. split_and!.
  - apply deposit_not_member.
  - intros Hm ->. by apply deposit_zero.
  - intros Hm Ha Hd Ht. split.
    + intros t' Htok. unfold transact.
      rewrite deposit_run by (done || lia). rewrite Htok.
      eexists; split; [reflexivity|]. cbn. rewrite sload_insert_eq.
      split_and!; auto. intros x Hx. by rewrite sload_insert_ne.
    + intros Htok. unfold transact.
      rewrite deposit_run by (done || lia).
      by destruct (transferFrom _ _ _ _ _).
  - apply deposit_transfer_fails.
Qed.

(** C9. In a world reached from deployment, [createProposal] by a member with
    a non-zero recipient and a non-zero amount, the counter not being at its
    ceiling, returns the proposal count and raises it by one; the proposal
    stored under the returned id has the caller as proposer, the arguments,
    no votes, nobody recorded as having voted, [executed = false] and the
    block's time; other proposals, all deposits and the token are untouched.
    Ids handed out later are larger.  The call reverts with [NotMember] for a
    non-member, [InvalidRecipient] for a member naming recipient zero, and
    [InvalidAmount] for a member asking for amount zero. *)
Theorem createProposal_sequential e w r a d :
  let s := storage w in
  (reachable w -> sload false (isMember s) (sender e) = true ->
   r <> 0 -> 0 < a -> proposalCount s < MAX_UINT256 ->
   exists w',
     transact (createProposal r a d) e w = (Ok (proposalCount s), w') /\
     proposalCount (storage w') = proposalCount s + 1 /\
     proposal_at (storage w') (proposalCount s) =
       Proposal.mk (proposalCount s) (sender e) r a d 0 0 ∅ false (timestamp e) /\
     (forall j, j <> proposalCount s ->
                proposal_at (storage w') j = proposal_at s j) /\
     deposits (storage w') = deposits s /\
     totalDeposits (storage w') = totalDeposits s /\
     token w' = token w) /\
  (forall n w1, transact (createProposal r a d) e w = (Ok n, w1) ->
     n = proposalCount s /\ proposalCount (storage w1) = n + 1 /\
     forall w2 e2 r2 a2 d2 n2 w3, later w1 w2 ->
       transact (createProposal r2 a2 d2) e2 w2 = (Ok n2, w3) -> n < n2) /\
  (sload false (isMember s) (sender e) = false ->
   transact (createProposal r a d) e w = (Revert NotMember, w)) /\
  (sload false (isMember s) (sender e) = true -> r = 0 ->
   transact (createProposal r a d) e w = (Revert InvalidRecipient, w)) /\
  (sload false (isMember s) (sender e) = true -> r <> 0 -> a = 0 ->
   transact (createProposal r a d) e w = (Revert InvalidAmount, w)).
Proof.
  cbv zeta. split_and!.
  - intros Hr Hm Hrec Ha Hn.
    destruct (createProposal_success e w r a d (reachable_wf w Hr) Hm Hrec
                ltac:(lia) Hn) as (w' & ? & ? & ? & ? & ? & ? & ? & ?).
    exists w'. split_and!; done.
  - intros n w1 Hrun.
    destruct (createProposal_returns_count _ _ _ _ _ _ _ Hrun) as [-> Hn1].
    split_and!; [done | done |].
    intros w2 e2 r2 a2 d2 n2 w3 Hlater Hrun2.
    destruct (createProposal_returns_count _ _ _ _ _ _ _ Hrun2) as [-> _].
    destruct (later_grows w1 w2 Hlater) as (Hle & _). lia.
  - apply createProposal_not_member.
  - intros Hm ->. by apply createProposal_no_recipient.
  - intros Hm Hr ->. by apply createProposal_zero_amount.
Qed.

(** C10. In a world reached from deployment, the owner's [removeMember] of a
    current member succeeds, clears the member's flag and lowers
    [memberCount] by one, and leaves the [members] array as it was, so that
    [getAllMembers] still returns the removed identity; the owner's
    [addMember] of an identity whose flag is clear appends it to the array,
    also when the array holds it already.  From every deployment, adding,
    removing and adding again one identity gives first an array that lists a
    non-member and then an array that holds the identity twice and is longer
    than [memberCount]. *)
Theorem removed_members_stay_listed e w m :
  let s := storage w in
  (reachable w -> sender e = owner s -> sload false (isMember s) m = true ->
   exists w',
     transact (removeMember m) e w = (Ok tt, w') /\
     sload false (isMember (storage w')) m = false /\
     memberCount (storage w') = memberCount s - 1 /\
     members (storage w') = members s /\
     m ∈ members (storage w') /\
     forall e', transact getAllMembers e' w' = (Ok (members s), w')) /\
  (sender e = owner s -> sload false (isMember s) m = false ->
   memberCount s < MAX_UINT256 ->
   exists w',
     transact (addMember m) e w = (Ok tt, w') /\
     members (storage w') = members s ++ [m] /\
     memberCount (storage w') = memberCount s + 1) /\
  (deployed w ->
   let admin := mkEnv (owner s) (timestamp e) in
   let w1 := play [(admin, Call_addMember m); (admin, Call_removeMember m)] w in
   let w2 := play [(admin, Call_addMember m)] w1 in
   reachable w1 /\ reachable w2 /\
   members (storage w1) = [m] /\
   sload false (isMember (storage w1)) m = false /\
   memberCount (storage w1) = 0 /\
   members (storage w2) = [m; m] /\
   memberCount (storage w2) = 1 /\
   memberCount (storage w2) < Z.of_nat (length (members (storage w2)))).
Proof.
  cbv zeta. split_and!.
  - intros Hr Ho Hm.
    destruct (reachable_members w Hr) as [Hcount Hlist].
    pose proof (counted_member_positive _ _ Hcount Hm).
    eexists. split; [by apply removeMember_success|]. cbn.
    rewrite sload_insert_eq. split_and!; auto.
  - intros Ho Hm Hn.
    eexists. split; [by apply addMember_success|]. cbn. done.
  - intros Hd.
    assert (reachable w) as Hr by (exists w; split; [done | apply rtc_refl]).
    split; [eapply reachable_later; [exact Hr | apply play_later]|].
    split; [eapply reachable_later; [exact Hr | eapply later_trans; apply play_later]|].
    destruct Hd as (tok & o & Hc). unfold constructor in Hc.
    repeat case_match; simplify_eq.
    pose proof MAX_UINT256_pos.
    destruct w as [self st tk ev cl]. cbn in Hc. subst st.
    unfold play. cbn [fold_left fst snd run_call storage owner].
    rewrite addMember_success; [| done | done | cbn; lia]. cbn [snd].
    rewrite removeMember_success;
      [| done | cbn; apply sload_insert_eq | cbn; lia]. cbn [snd].
    rewrite addMember_success;
      [| done | cbn; apply sload_insert_eq | cbn; lia].
    cbn. rewrite sload_insert_eq. done.
Qed.
End Claims_voting_deposits.

Lemma funded_reachable : reachable Example.funded.
Proof. unfold Example.funded. apply played_reachable. Qed.

Lemma vote_once_and_frozen_witness :
  let alice := Example.by_ Example.alice (Call_vote 0 true) in
  transact (vote 0 false) alice.1 Example.one_vote
  = (Revert AlreadyVoted, Example.one_vote) /\
  transact (vote 0 true) alice.1 Example.one_vote
  = (Revert AlreadyVoted, Example.one_vote) /\
  transact (vote 0 true) alice.1 Example.paid
  = (Revert ProposalAlreadyExecuted, Example.paid).
Proof.
  cbv zeta.
  pose proof (vote_once_and_frozen
                (Example.by_ Example.alice (Call_vote 0 true)).1
                Example.proposed 0 true) as (Hsecond & _ & _).
  pose proof (vote_once_and_frozen
                (Example.by_ Example.alice (Call_vote 0 true)).1
                Example.paid 0 true) as (_ & Hfrozen & _).
  cbv zeta in Hsecond, Hfrozen.
  destruct (Hsecond Example.one_vote ltac:(crunch)) as (Hnow & _).
  split_and!.
  - exact (Hnow false).
  - exact (Hnow true).
  - exact (proj2 (Hfrozen ltac:(crunch) ltac:(crunch)) ltac:(crunch)).
Defined.

Lemma deposit_all_or_nothing_witness :
  let alice := mkEnv Example.alice 0 in
  (exists w', transact (deposit 200) alice Example.funded = (Ok tt, w') /\
              sload 0 (deposits (storage w')) Example.alice = 700 /\
              totalDeposits (storage w') = 700) /\
  transact (deposit 200) alice (Example.pause Example.funded)
  = (Revert (TokenError "EnforcedPause"), Example.pause Example.funded) /\
  transact (deposit 200) alice (Example.soften (Example.pause Example.funded))
  = (Revert SafeERC20FailedOperation, Example.soften (Example.pause Example.funded)) /\
  transact (deposit 0) alice Example.funded
  = (Revert InvalidAmount, Example.funded) /\
  transact (deposit 200) (mkEnv Example.mallory 0) Example.funded
  = (Revert NotMember, Example.funded).
Proof.
  cbv zeta.
  pose proof (deposit_all_or_nothing (mkEnv Example.alice 0) Example.funded 200)
    as (_ & _ & Hgood & _).
  pose proof (deposit_all_or_nothing (mkEnv Example.alice 0)
                (Example.pause Example.funded) 200) as (_ & _ & Hbad & _).
  pose proof (deposit_all_or_nothing (mkEnv Example.alice 0)
                (Example.soften (Example.pause Example.funded)) 200)
    as (_ & _ & Hsoft & _).
  pose proof (deposit_all_or_nothing (mkEnv Example.alice 0) Example.funded 0)
    as (_ & Hzero & _).
  pose proof (deposit_all_or_nothing (mkEnv Example.mallory 0) Example.funded 200)
    as (Hstranger & _).
  cbv zeta in Hgood, Hbad, Hsoft, Hzero, Hstranger.
  split_and!.
  - destruct (Hgood ltac:(crunch) ltac:(crunch) ltac:(crunch) ltac:(crunch))
      as (Hok & _).
    destruct (transferFrom (token Example.funded) (this Example.funded)
                Example.alice (this Example.funded) 200) as [t'| |reason] eqn:Ht;
      [|by vm_compute in Ht|by vm_compute in Ht].
    destruct (Hok t' Ht) as (w' & Hrun & Hd & Htot & _).
    exists w'. split_and!;
      [exact Hrun | etrans; [exact Hd | crunch] | etrans; [exact Htot | crunch]].
  - destruct (Hbad ltac:(crunch) ltac:(crunch) ltac:(crunch) ltac:(crunch))
      as (_ & Hfail).
    assert (Herr : transfer_error
                     (transferFrom (token (Example.pause Example.funded))
                        (this (Example.pause Example.funded)) Example.alice
                        (this (Example.pause Example.funded)) 200)
                   = TokenError "EnforcedPause") by crunch.
    rewrite <- Herr. exact (proj1 (Hfail ltac:(crunch))).
  - destruct (Hsoft ltac:(crunch) ltac:(crunch) ltac:(crunch) ltac:(crunch))
      as (_ & Hfail).
    assert (Herr : transfer_error
                     (transferFrom (token (Example.soften (Example.pause Example.funded)))
                        (this (Example.soften (Example.pause Example.funded)))
                        Example.alice
                        (this (Example.soften (Example.pause Example.funded))) 200)
                   = SafeERC20FailedOperation) by crunch.
    rewrite <- Herr. exact (proj1 (Hfail ltac:(crunch))).
  - exact (Hzero ltac:(crunch) eq_refl).
  - exact (Hstranger ltac:(crunch)).
Defined.

Lemma createProposal_sequential_witness :
  let bob := mkEnv Example.bob 1700000000 in
  (exists w', transact (createProposal Example.vendor 100 "subscription renewal")
                bob Example.funded = (Ok 0, w') /\
              proposal_at (storage w') 0 =
                Proposal.mk 0 Example.bob Example.vendor 100 "subscription renewal"
                            0 0 ∅ false 1700000000) /\
  transact (createProposal 0 100 "to nobody") bob Example.funded
  = (Revert InvalidRecipient, Example.funded) /\
  transact (createProposal Example.vendor 0 "nothing") bob Example.funded
  = (Revert InvalidAmount, Example.funded) /\
  transact (createProposal Example.vendor 100 "not mine")
    (mkEnv Example.mallory 0) Example.funded
  = (Revert NotMember, Example.funded).
Proof.
  cbv zeta.
  pose proof (createProposal_sequential (mkEnv Example.bob 1700000000)
                Example.funded Example.vendor 100 "subscription renewal")
    as (Hgood & _).
  pose proof (createProposal_sequential (mkEnv Example.bob 1700000000)
                Example.funded 0 100 "to nobody") as (_ & _ & _ & Hrec & _).
  pose proof (createProposal_sequential (mkEnv Example.bob 1700000000)
                Example.funded Example.vendor 0 "nothing")
    as (_ & _ & _ & _ & Hzero).
  pose proof (createProposal_sequential (mkEnv Example.mallory 0)
                Example.funded Example.vendor 100 "not mine")
    as (_ & _ & Hstranger & _).
  cbv zeta in Hgood, Hrec, Hzero, Hstranger.
  split_and!.
  - destruct Hgood as (w' & Hrun & _ & Hp & _);
      [apply funded_reachable | crunch | crunch | crunch | crunch |].
    exists w'. split; [exact Hrun | exact Hp].
  - exact (Hrec ltac:(crunch) eq_refl).
  - exact (Hzero ltac:(crunch) ltac:(crunch) eq_refl).
  - exact (Hstranger ltac:(crunch)).
Defined.

Lemma removed_members_stay_listed_witness :
  let admin := mkEnv Example.admin 0 in
  (exists w', transact (removeMember Example.alice) admin Example.funded = (Ok tt, w') /\
              sload false (isMember (storage w')) Example.alice = false /\
              transact getAllMembers admin w'
              = (Ok [Example.alice; Example.bob; Example.carol], w')) /\
  members (storage
             (play [(admin, Call_addMember Example.alice);
                    (admin, Call_removeMember Example.alice);
                    (admin, Call_addMember Example.alice)] Example.genesis))
  = [Example.alice; Example.alice].
Proof.
  cbv zeta.
  pose proof (removed_members_stay_listed (mkEnv Example.admin 0)
                Example.funded Example.alice) as (Hremove & _ & _).
  pose proof (removed_members_stay_listed (mkEnv Example.admin 0)
                Example.genesis Example.alice) as (_ & _ & Htwice).
  cbv zeta in Hremove, Htwice.
  split.
  - destruct Hremove as (w' & Hrun & Hflag & _ & _ & _ & Hall);
      [apply funded_reachable | crunch | crunch |].
    exists w'. split_and!; [exact Hrun | exact Hflag | apply Hall].
  - destruct (Htwice genesis_deployed) as (_ & _ & _ & _ & _ & Hmm & _).
    rewrite <- Hmm. crunch.
Defined.

(** * The oracle's policy *)

Module OracleFacts.
Import Oracle.
Local Open Scope string_scope.

Lemma lower_char_idem (c : ascii) : lower_char (lower_char c) = lower_char c.
Proof. destruct c as [[] [] [] [] [] [] [] []]; reflexivity. Qed.

Lemma app_cons (a : ascii) (s t : string) : String a s ++ t = String a (s ++ t).
Proof. reflexivity. Qed.

Lemma app_empty (t : string) : EmptyString ++ t = t.
Proof. reflexivity. Qed.

Lemma toLowerCase_app (s t : string) :
  toLowerCase (s ++ t) = toLowerCase s ++ toLowerCase t.
Proof.
  induction s as [|c s IH]; [done|].
  rewrite app_cons. cbn [toLowerCase]. by rewrite app_cons, IH.
Qed.

Lemma toLowerCase_idem (s : string) : toLowerCase (toLowerCase s) = toLowerCase s.
Proof.
  induction s as [|c s IH]; cbn; [done | by rewrite lower_char_idem, IH].
Qed.

(** A split of the lower-cased text comes from a split of the text. *)
Lemma toLowerCase_split (t x y : string) :
  toLowerCase t = x ++ y ->
  exists t1 t2, t = t1 ++ t2 /\ toLowerCase t1 = x /\ toLowerCase t2 = y.
Proof.
  revert t. induction x as [|c x IH]; intros t Ht.
  - exists EmptyString, t. done.
  - rewrite app_cons in Ht.
    destruct t as [|a t]; [discriminate|]. cbn [toLowerCase] in Ht.
    injection Ht as Hc Ht.
    destruct (IH t Ht) as (t1 & t2 & -> & H1 & H2).
    exists (String a t1), t2. cbn [toLowerCase]. by rewrite Hc, H1, H2.
Qed.

Lemma same_text_lower (s t : string) :
  same_text s t <-> toLowerCase s = toLowerCase t.
Proof.
  split.
  - induction 1 as [|a b s t Hab _ IH]; cbn; [done|].
    unfold same_letter in Hab. by rewrite Hab, IH.
  - revert t. induction s as [|a s IH]; intros [|b t] Hst; try discriminate.
    + constructor.
    + cbn in Hst. injection Hst as Hab Hst. constructor; [done | by apply IH].
Qed.

Lemma startsWith_spec (s sub : string) :
  startsWith s sub = true <-> exists rest, s = sub ++ rest.
Proof.
  revert s. induction sub as [|b sub IH]; intros s.
  - destruct s; cbn; split; eauto.
  - destruct s as [|a s]; cbn [startsWith].
    + split; [discriminate | by intros [? ?]].
    + destruct (Ascii.eqb_spec a b) as [->|Hne].
      * rewrite IH. split; intros [rest Hr]; exists rest.
        -- by rewrite app_cons, Hr.
        -- rewrite app_cons in Hr. by injection Hr.
      * split; [discriminate|]. intros [rest Hr]. rewrite app_cons in Hr.
        injection Hr as Hab _. done.
Qed.

Lemma startsWith_app (sub rest : string) : startsWith (sub ++ rest) sub = true.
Proof. apply startsWith_spec. eauto. Qed.

Lemma includes_spec (s sub : string) :
  includes s sub = true <-> exists before after, s = before ++ sub ++ after.
Proof.
  induction s as [|a s IH]; cbn [includes].
  - destruct (startsWith EmptyString sub) eqn:Hs.
    + apply startsWith_spec in Hs as [rest Hs]. split; [|done].
      intros _. exists EmptyString, rest. done.
    + split; [discriminate|]. intros ([|c before] & after & Hs'); [|discriminate].
      rewrite app_empty in Hs'. rewrite Hs', startsWith_app in Hs. discriminate.
  - destruct (startsWith (String a s) sub) eqn:Hs.
    + apply startsWith_spec in Hs as [rest Hs]. split; [|done].
      intros _. exists EmptyString, rest. done.
    + rewrite IH. split.
      * intros (before & after & ->). exists (String a before), after. done.
      * intros ([|c before] & after & Hs').
        -- rewrite app_empty in Hs'. rewrite Hs', startsWith_app in Hs.
           discriminate.
        -- rewrite app_cons in Hs'. injection Hs' as _ ->. eauto.
Qed.

(** What the code tests is what the specification calls containing the
    keyword case-insensitively. *)
Lemma includes_lower_spec (text keyword : string) :
  toLowerCase keyword = keyword ->
  includes (toLowerCase text) keyword = true <-> contains_ci text keyword.
Proof.
  intros Hkw. rewrite includes_spec. unfold contains_ci. split.
  - intros (x & z & Ht).
    destruct (toLowerCase_split _ _ _ Ht) as (before & rest & -> & <- & Hrest).
    destruct (toLowerCase_split _ _ _ Hrest) as (found & after & -> & Hf & <-).
    exists before, found, after. split; [done|].
    apply same_text_lower. by rewrite Hkw.
  - intros (before & found & after & -> & Hsame).
    apply same_text_lower in Hsame. rewrite Hkw in Hsame.
    exists (toLowerCase before), (toLowerCase after).
    by rewrite !toLowerCase_app, Hsame.
Qed.

Lemma first_match_functional (rs : list Rule) (d o1 o2 : Decision) :
  first_match rs d o1 -> first_match rs d o2 -> o1 = o2.
Proof.
  induction 1; inversion 1; subst; try done; auto.
Qed.

(** A keyword rule of the code and the matching rule of the list. *)
Lemma keyword_rule (text keyword : string) (amount limit : Number) :
  toLowerCase keyword = keyword ->
  includes (toLowerCase text) keyword && ltb amount limit = true <->
  contains_ci text keyword /\ less amount limit.
Proof.
  intros Hkw. rewrite andb_true_iff, (includes_lower_spec _ _ Hkw). done.
Qed.

Lemma keyword_rule_not (text keyword : string) (amount limit : Number) :
  toLowerCase keyword = keyword ->
  includes (toLowerCase text) keyword && ltb amount limit = false ->
  ~ (contains_ci text keyword /\ less amount limit).
Proof.
  intros Hkw Hb Hp. apply (keyword_rule _ _ _ _ Hkw) in Hp. congruence.
Qed.

(** Keyword tests on given texts, by evaluation. *)
Lemma contains_by_evaluation (text keyword : string) :
  toLowerCase keyword = keyword ->
  includes (toLowerCase text) keyword = true ->
  contains_ci text keyword.
Proof. intros Hkw. apply includes_lower_spec, Hkw. Qed.

Lemma lacks_by_evaluation (text keyword : string) :
  toLowerCase keyword = keyword ->
  includes (toLowerCase text) keyword = false ->
  ~ contains_ci text keyword.
Proof.
  intros Hkw Hno Hyes. apply (includes_lower_spec _ _ Hkw) in Hyes. congruence.
Qed.

(** A keyword rule of the code against the rule of the list, where the
    code's numeric test gives the exact answer. *)
Lemma keyword_rule_exact (text keyword : string) (x limit : Number) (P : Prop) :
  toLowerCase keyword = keyword ->
  (less x limit <-> P) ->
  (includes (toLowerCase text) keyword && ltb x limit = true
   <-> contains_ci text keyword /\ P).
Proof. intros Hkw HP. rewrite (keyword_rule _ _ _ _ Hkw), HP. done. Qed.

(** The rule order and the keyword tests of the code are those of the
    specification: wherever its five numeric tests give the exact answer,
    [aiDecision] decides as the rule list does. *)
Lemma aiDecision_follows_policy_when_exact (wei : Z) (text : string)
      (balance : Z) :
  tests_exact wei balance ->
  policy wei text balance (decision_of (aiDecision wei text balance)).
Proof.
  intros (E1 & E2 & E3 & E4 & E5).
  unfold policy, rules, aiDecision. cbv zeta.
  destruct (includes (toLowerCase text) "emergency" && _) eqn:H1.
  { apply first_match_here. by apply (keyword_rule_exact _ _ _ _ _ eq_refl E1). }
  apply first_match_next.
  { intros HP. apply (keyword_rule_exact _ _ _ _ _ eq_refl E1) in HP. congruence. }
  destruct (includes (toLowerCase text) "subscription" && _) eqn:H2.
  { apply first_match_here. by apply (keyword_rule_exact _ _ _ _ _ eq_refl E2). }
  apply first_match_next.
  { intros HP. apply (keyword_rule_exact _ _ _ _ _ eq_refl E2) in HP. congruence. }
  destruct (includes (toLowerCase text) "gas" && _) eqn:H3.
  { apply first_match_here. by apply (keyword_rule_exact _ _ _ _ _ eq_refl E3). }
  apply first_match_next.
  { intros HP. apply (keyword_rule_exact _ _ _ _ _ eq_refl E3) in HP. congruence. }
  destruct (ltb (sub _ _) _) eqn:H4.
  { apply first_match_here. by apply E4. }
  apply first_match_next.
  { intros HP. apply E4 in HP. unfold less in HP.
    fold (ltb (sub (Number_formatEther balance) (Number_formatEther wei)) (num 100))
      in HP.
    congruence. }
  destruct (includes (toLowerCase text) "urgent" && _) eqn:H5.
  { apply first_match_here. by apply (keyword_rule_exact _ _ _ _ _ eq_refl E5). }
  apply first_match_next.
  { intros HP. apply (keyword_rule_exact _ _ _ _ _ eq_refl E5) in HP. congruence. }
  apply first_match_default.
Qed.

(** The numeric tests are exact on the amounts and balances of the
    specification's scenarios. *)
Lemma tests_exact_on_scenarios :
  tests_exact (100 * MNEE) (1000 * MNEE) /\
  tests_exact (8 * MNEE) (1000 * MNEE) /\
  tests_exact (15 * MNEE) (110 * MNEE).
Proof.
  unfold tests_exact.
  repeat match goal with |- _ /\ _ => split end;
    split; intros Hx; vm_compute in Hx |- *; congruence.
Qed.

(** The rule list has one outcome. *)
Lemma policy_functional (wei : Z) (text : string) (balance : Z) (d1 d2 : Decision) :
  policy wei text balance d1 -> policy wei text balance d2 -> d1 = d2.
Proof. apply first_match_functional. Qed.
End OracleFacts.

(** C3. The decision of [aiDecision] is not always that of the rule list.
    An "emergency" request for one smallest unit less than 10 MNEE is under
    the first threshold, so the list approves it, but its amount reads as
    the Number 10 and the code defers it.  An "urgent" request for one
    smallest unit from a treasury of exactly 100 MNEE would leave less than
    the floor, so the list defers it, but the difference reads as the
    Number 100 and the code approves it. *)
Theorem aiDecision_misses_thresholds_by_rounding :
  (Oracle.policy (10 * Oracle.MNEE - 1) "emergency" (1000 * Oracle.MNEE)
     Oracle.Approved /\
   Oracle.aiDecision (10 * Oracle.MNEE - 1) "emergency" (1000 * Oracle.MNEE)
   = false) /\
  (Oracle.policy 1 "urgent" (100 * Oracle.MNEE) Oracle.Deferred /\
   Oracle.aiDecision 1 "urgent" (100 * Oracle.MNEE) = true).
Proof.
  split; split.
  - apply Oracle.first_match_here. split.
    + apply OracleFacts.contains_by_evaluation; vm_compute; reflexivity.
    + vm_compute. reflexivity.
  - vm_compute. reflexivity.
  - unfold Oracle.policy, Oracle.rules.
    do 3 (apply Oracle.first_match_next;
          [intros [Hc _]; revert Hc;
           apply OracleFacts.lacks_by_evaluation; vm_compute; reflexivity|]).
    apply Oracle.first_match_here. vm_compute. reflexivity.
  - vm_compute. reflexivity.
Qed.

(** The two scenarios of the specification. *)
Example oracle_defers_large_subscription :
  Oracle.aiDecision (100 * Oracle.MNEE) "subscription renewal" (1000 * Oracle.MNEE)
  = false.
Proof. vm_compute. reflexivity. Qed.

Example oracle_approves_small_emergency :
  Oracle.aiDecision (8 * Oracle.MNEE) "Emergency repair" (500 * Oracle.MNEE) = true.
Proof. vm_compute. reflexivity. Qed.

(** The reserve floor comes before "urgent" but after "gas". *)
Example oracle_floor_overrides_urgent :
  Oracle.aiDecision (15 * Oracle.MNEE) "URGENT: server bill" (110 * Oracle.MNEE)
  = false /\
  Oracle.aiDecision (15 * Oracle.MNEE) "URGENT: server bill" (500 * Oracle.MNEE)
  = true /\
  Oracle.aiDecision (2 * Oracle.MNEE) "gas refund" (50 * Oracle.MNEE) = true.
Proof. vm_compute. auto. Qed.

(** * Further properties of the ledger *)

(** ** Administration *)

Lemma size_list_to_set_le (l : list Z) :
  (size (list_to_set (C := gset Z) l) <= length l)%nat.
Proof.
  induction l as [|x l IH]; cbn [list_to_set foldr length].
  - by rewrite size_empty.
  - change (foldr (fun x X => {[x]} ∪ X) ∅ l) with (list_to_set (C := gset Z) l).
    rewrite size_union_alt, size_singleton.
    assert (list_to_set (C := gset Z) l ∖ {[x]} ⊆ list_to_set l) as Hsub.
    { intros y Hy. by apply elem_of_difference in Hy as [? _]. }
    apply subseteq_size in Hsub. lia.
Qed.

Lemma listed_members_bound (s : Storage) :
  members_listed s ->
  (size (current_members s) <= length (members s))%nat.
Proof.
  intros Hl. rewrite <- (size_dom (current_members s)).
  etrans; [|apply size_list_to_set_le].
  apply subseteq_size. intros m Hm.
  apply elem_of_dom in Hm as [b Hb].
  unfold current_members in Hb. apply map_lookup_filter_Some in Hb as [Hb Hp].
  cbn in Hp. subst b. apply elem_of_list_to_set, Hl.
  unfold sload. by rewrite Hb.
Qed.

Section Administration.
Context {T : Type} `{IERC20 T}.
Implicit Types (e : Env) (w : World T).

Lemma transaction_administration e (c : Call) w :
  sender e <> owner (storage w) ->
  administration (storage (snd (transact (run_call c) e w)))
  = administration (storage w).
Proof.
  intros Ho. apply Z.eqb_neq in Ho.
  destruct c; sol_cases; done.
Qed.

(** X1. In every world reached from deployment [memberCount] is the number
    of identities whose membership flag is set, each of them is in the
    [members] array, and the array is at least as long as the count. *)
Theorem member_count_counts_members w :
  reachable w ->
  memberCount (storage w) = Z.of_nat (size (current_members (storage w))) /\
  (forall m, sload false (isMember (storage w)) m = true ->
             m ∈ members (storage w)) /\
  memberCount (storage w) <= Z.of_nat (length (members (storage w))).
Proof.
  intros Hr. destruct (reachable_members w Hr) as [Hc Hl].
  split_and!; [done | done |].
  rewrite Hc. pose proof (listed_members_bound _ Hl). lia.
Qed.

(** X2. A transaction whose sender is not the owner changes neither the
    owner, nor the oracle, nor any membership flag, nor the [members] array,
    nor [memberCount]; sent to [addMember], [removeMember], [setAIOracle],
    [transferOwnership] or [renounceOwnership] it reverts with
    [OwnableUnauthorizedAccount]. *)
Theorem only_owner_administers e w :
  sender e <> owner (storage w) ->
  (forall c : Call,
     administration (storage (snd (transact (run_call c) e w)))
     = administration (storage w)) /\
  (forall m, transact (addMember m) e w = (Revert OwnableUnauthorizedAccount, w)) /\
  (forall m, transact (removeMember m) e w
             = (Revert OwnableUnauthorizedAccount, w)) /\
  (forall o, transact (setAIOracle o) e w
             = (Revert OwnableUnauthorizedAccount, w)) /\
  (forall o, transact (transferOwnership o) e w
             = (Revert OwnableUnauthorizedAccount, w)) /\
  transact renounceOwnership e w = (Revert OwnableUnauthorizedAccount, w).
Proof.
  intros Ho. split; [intros c; by apply transaction_administration|].
  apply Z.eqb_neq in Ho.
  split_and!; intros; sol_unfold; by sol_rw.
Qed.

(** X3. The owner's [addMember] of a current member reverts with
    [AlreadyMember] and the owner's [removeMember] of a non-member with
    [NotMember], the world unchanged.  Adding a non-member and removing it
    again gives back every membership flag and the count, and leaves the
    array one entry longer. *)
Theorem add_then_remove_member e w m :
  sender e = owner (storage w) ->
  (sload false (isMember (storage w)) m = true ->
   transact (addMember m) e w = (Revert AlreadyMember, w)) /\
  (sload false (isMember (storage w)) m = false ->
   transact (removeMember m) e w = (Revert NotMember, w)) /\
  (sload false (isMember (storage w)) m = false ->
   0 <= memberCount (storage w) < MAX_UINT256 ->
   exists w1 w2,
     transact (addMember m) e w = (Ok tt, w1) /\
     transact (checkMember m) e w1 = (Ok true, w1) /\
     transact (removeMember m) e w1 = (Ok tt, w2) /\
     (forall x, sload false (isMember (storage w2)) x
                = sload false (isMember (storage w)) x) /\
     memberCount (storage w2) = memberCount (storage w) /\
     members (storage w2) = members (storage w) ++ [m] /\
     events w2 = events w ++ [MemberAdded m; MemberRemoved m]).
Proof.
  intros Ho. split_and!.
  - intros Hm. apply Z.eqb_eq in Ho. sol_unfold. by sol_rw.
  - intros Hm. apply Z.eqb_eq in Ho. sol_unfold. by sol_rw.
  - intros Hm Hn.
    eexists _, _. split; [apply addMember_success; [done | done | lia]|].
    split.
    { sol_unfold. cbn. by rewrite sload_insert_eq. }
    split.
    { rewrite removeMember_success; [| done | cbn; apply sload_insert_eq | cbn; lia].
      reflexivity. }
    cbn. split_and!.
    + intros x. rewrite !sload_insert. case_decide; [by subst|done].
    + lia.
    + done.
    + by rewrite <- app_assoc.
Qed.
End Administration.

(** ** The oracle seat and votes *)

Lemma voters_lookup (p : Proposal.t) (x : Z) :
  voters p !! x = Some true <-> sload false (Proposal.hasVoted p) x = true.
Proof.
  unfold voters, sload. rewrite map_lookup_filter_Some. cbn.
  destruct (Proposal.hasVoted p !! x) as [[]|]; cbn;
    (split; [by intros [? _] | done]).
Qed.

Lemma voters_add (hv : gmap Z bool) (x : Z) :
  sload false hv x = false ->
  size (filter (fun kv : Z * bool => kv.2 = true) (<[x := true]> hv))
  = S (size (filter (fun kv : Z * bool => kv.2 = true) hv)).
Proof.
  intros Hx. rewrite map_filter_insert_True by done.
  apply map_size_insert_None, map_lookup_filter_None. right.
  intros b Hb. unfold sload in Hx. rewrite Hb in Hx. cbn in *. congruence.
Qed.

Section Seat_and_votes.
Context {T : Type} `{IERC20 T}.
Implicit Types (e : Env) (w : World T) (i : Z).

Lemma transaction_tallies e (c : Call) w :
  tallies_match (storage w) ->
  tallies_match (storage (snd (transact (run_call c) e w))).
Proof.
  intros Ht.
  destruct c; sol_cases; try done; to_Prop; intros j;
    destruct (Ht j) as (Hf & Ha & Hsum); cbn;
    rewrite ?proposal_at_update; repeat case_decide; subst; cbn;
    rewrite ?proposal_at_update; repeat case_decide; subst; cbn;
    try done; unfold voters in *; cbn;
    rewrite ?voters_add by done; split_and!; lia.
Qed.

Lemma reachable_tallies w : reachable w -> tallies_match (storage w).
Proof.
  intros (w0 & (a & o & Hc) & Hl).
  assert (tallies_match (storage w0)) as Hinit.
  { unfold constructor in Hc. repeat case_match; simplify_eq. rewrite <- Hc.
    intros i. unfold proposal_at, sload. cbn. rewrite lookup_empty. cbn.
    unfold voters. cbn. by rewrite map_filter_empty, map_size_empty. }
  clear Hc. induction Hl as [|w1 w2 w3 Hstep _ IH]; [done|].
  apply IH. destruct Hstep; [by apply transaction_tallies | done].
Qed.

(** X4. The owner's [setAIOracle] always succeeds: it installs the new
    oracle, logs [AIOrracleUpdated] with the old and the new one and changes
    nothing else; from then on [autoExecute] reverts with
    [UnauthorizedAIExecution] for every caller but the new oracle, the
    previous oracle included. *)
Theorem setAIOracle_hands_over e w o :
  sender e = owner (storage w) ->
  let w' := mkWorld (this w) (set_aiOracle o (storage w)) (token w)
              (events w ++ [AIOrracleUpdated (aiOracle (storage w)) o])
              (calls w) in
  transact (setAIOracle o) e w = (Ok tt, w') /\
  forall e' i, sender e' <> o ->
    transact (autoExecute i) e' w' = (Revert UnauthorizedAIExecution, w').
Proof.
  intros Ho. cbv zeta. split.
  - apply Z.eqb_eq in Ho. sol_unfold. by sol_rw.
  - intros e' i Hne. by apply autoExecute_unauthorized.
Qed.

(** X5. A member's first vote on an allocated, pending proposal succeeds
    (tallies below the uint256 ceiling): it raises [votesFor] by one when the
    vote is in support and [votesAgainst] by one when it is not, leaves the
    other tally, the proposal's terms and flag, every other proposal and all
    balances as they were, records the voter and logs [Voted]. *)
Theorem vote_counts_once e w i support :
  let s := storage w in
  let p := proposal_at s i in
  sload false (isMember s) (sender e) = true ->
  i < proposalCount s ->
  Proposal.executed p = false ->
  sload false (Proposal.hasVoted p) (sender e) = false ->
  Proposal.votesFor p < MAX_UINT256 ->
  Proposal.votesAgainst p < MAX_UINT256 ->
  exists w',
    transact (vote i support) e w = (Ok tt, w') /\
    Proposal.votesFor (proposal_at (storage w') i)
      = Proposal.votesFor p + (if support then 1 else 0) /\
    Proposal.votesAgainst (proposal_at (storage w') i)
      = Proposal.votesAgainst p + (if support then 0 else 1) /\
    Proposal.hasVoted (proposal_at (storage w') i)
      = <[sender e := true]> (Proposal.hasVoted p) /\
    terms_of (proposal_at (storage w') i) = terms_of p /\
    Proposal.executed (proposal_at (storage w') i) = false /\
    (forall j, j <> i -> proposal_at (storage w') j = proposal_at s j) /\
    administration (storage w') = administration s /\
    deposits (storage w') = deposits s /\
    totalDeposits (storage w') = totalDeposits s /\
    proposalCount (storage w') = proposalCount s /\
    token w' = token w /\
    events w' = events w ++ [Voted i (sender e) support].
Proof.
  cbv zeta. intros Hm Hi Hex Hv Hf Ha. apply Z.leb_gt in Hi.
  assert ((Proposal.votesFor (proposal_at (storage w) i) + 1 <=? MAX_UINT256) = true)
    by (apply Z.leb_le; lia).
  assert ((Proposal.votesAgainst (proposal_at (storage w) i) + 1 <=? MAX_UINT256)
          = true) by (apply Z.leb_le; lia).
  sol_unfold. sol_rw.
  destruct support; sol_rw; eexists; (split; [reflexivity|]); cbn;
    rewrite !proposal_at_update_eq; cbn; split_and!; auto with lia;
    intros j Hj; by rewrite !proposal_at_update_ne.
Qed.

(** X6. [vote] reverts with [NotMember] for a caller whose membership flag is
    clear, whatever the proposal id, and with [ProposalNotFound] for a
    member's vote on an id at or beyond [proposalCount]. *)
Theorem vote_guards e w i support :
  (sload false (isMember (storage w)) (sender e) = false ->
   transact (vote i support) e w = (Revert NotMember, w)) /\
  (sload false (isMember (storage w)) (sender e) = true ->
   proposalCount (storage w) <= i ->
   transact (vote i support) e w = (Revert ProposalNotFound, w)).
Proof.
  split.
  - intros Hm. sol_unfold. by sol_rw.
  - intros Hm Hi. apply Z.leb_le in Hi. sol_unfold. by sol_rw.
Qed.

(** X7. An id at or beyond [proposalCount] is unknown to every entry point
    that takes one: [executeProposal], [getProposal] and [hasVoted] revert
    with [ProposalNotFound] for every caller, [autoExecute] does for the
    oracle, and none of them changes the world. *)
Theorem unknown_proposal_rejected e w i :
  proposalCount (storage w) <= i ->
  transact (executeProposal i) e w = (Revert ProposalNotFound, w) /\
  transact (getProposal i) e w = (Revert ProposalNotFound, w) /\
  (forall x, transact (hasVoted i x) e w = (Revert ProposalNotFound, w)) /\
  (sender e = aiOracle (storage w) ->
   transact (autoExecute i) e w = (Revert ProposalNotFound, w)).
Proof.
  intros Hi. apply Z.leb_le in Hi.
  split_and!; intros; unfold getProposal; sol_unfold; try by sol_rw.
  assert ((sender e =? aiOracle (storage w)) = true) by by apply Z.eqb_eq.
  by sol_rw.
Qed.

(** X8. In every world reached from deployment, on every proposal, both
    tallies are non-negative and [votesFor + votesAgainst] is the number of
    identities recorded as having voted on it. *)
Theorem tallies_count_voters w i :
  reachable w ->
  let p := proposal_at (storage w) i in
  0 <= Proposal.votesFor p /\ 0 <= Proposal.votesAgainst p /\
  Proposal.votesFor p + Proposal.votesAgainst p = Z.of_nat (size (voters p)).
Proof. intros Hr. apply (reachable_tallies w Hr i). Qed.
End Seat_and_votes.

(** ** What is settled stays settled *)

Lemma sum_deposits_insert (m : gmap Z Z) (k x : Z) :
  map_fold (fun _ v acc => v + acc) 0 (<[k := x]> m)
  = map_fold (fun _ v acc => v + acc) 0 m - sload 0 m k + x.
Proof.
  assert (Hcomm : forall (j1 j2 : Z) (z1 z2 y : Z), z1 + (z2 + y) = z2 + (z1 + y))
    by (intros; lia).
  unfold sload. destruct (m !! k) as [d|] eqn:Hk; cbn.
  - rewrite <- insert_delete_eq.
    rewrite (map_fold_insert_L _ _ k x (delete k m));
      [| intros; lia | apply lookup_delete_eq].
    rewrite (map_fold_delete_L _ _ k d m); [| intros; lia | done]. lia.
  - rewrite (map_fold_insert_L _ _ k x m); [| intros; lia | done]. lia.
Qed.

Lemma total_pulled_in_app (cs : list ExternalCall) (c : ExternalCall) :
  total_pulled_in (cs ++ [c]) = total_pulled_in cs + pulled_in c.
Proof.
  unfold total_pulled_in. induction cs as [|c' cs IH]; cbn; [lia|].
  rewrite IH. lia.
Qed.

Lemma executions_logged_app (i : Z) (evs : list Event) (ev : Event) :
  executions_logged i (evs ++ [ev])
  = (executions_logged i evs + (if is_execution_of i ev then 1 else 0))%nat.
Proof.
  unfold executions_logged. rewrite List.filter_app, length_app. cbn.
  by destruct (is_execution_of i ev).
Qed.

Section Settled.
Context {T : Type} `{IERC20 T}.
Implicit Types (e : Env) (w : World T) (i : Z).

Lemma transaction_keeps_executed e (c : Call) w i :
  i < proposalCount (storage w) ->
  Proposal.executed (proposal_at (storage w) i) = true ->
  proposal_at (storage (snd (transact (run_call c) e w))) i
  = proposal_at (storage w) i.
Proof.
  intros Hi Hex.
  destruct c; sol_cases; try done; to_Prop; cbn;
    rewrite ?proposal_at_update; repeat case_decide; subst;
    try done; try lia; congruence.
Qed.

Lemma later_keeps_executed w w' i :
  later w w' ->
  i < proposalCount (storage w) ->
  Proposal.executed (proposal_at (storage w) i) = true ->
  proposal_at (storage w') i = proposal_at (storage w) i.
Proof.
  induction 1 as [|w1 w2 w3 Hstep _ IH]; [done|]. intros Hi Hex.
  assert (proposal_at (storage w2) i = proposal_at (storage w1) i) as H12.
  { destruct Hstep; [by apply transaction_keeps_executed | done]. }
  destruct (step_grows _ _ Hstep) as (Hn & _).
  rewrite IH; [done | lia | by rewrite H12].
Qed.

Lemma transaction_keeps_terms e (c : Call) w i :
  i < proposalCount (storage w) ->
  terms_of (proposal_at (storage (snd (transact (run_call c) e w))) i)
  = terms_of (proposal_at (storage w) i).
Proof.
  intros Hi.
  destruct c; sol_cases; try done; to_Prop; cbn;
    rewrite ?proposal_at_update; repeat case_decide; subst;
    try done; lia.
Qed.

Lemma later_keeps_terms w w' i :
  later w w' ->
  i < proposalCount (storage w) ->
  terms_of (proposal_at (storage w') i) = terms_of (proposal_at (storage w) i).
Proof.
  induction 1 as [|w1 w2 w3 Hstep _ IH]; [done|]. intros Hi.
  destruct (step_grows _ _ Hstep) as (Hn & _).
  rewrite IH by lia.
  destruct Hstep; [by apply transaction_keeps_terms | done].
Qed.

Lemma transaction_well_formed e (c : Call) w :
  wf_storage (storage w) ->
  proposals_well_formed (storage w) ->
  proposals_well_formed (storage (snd (transact (run_call c) e w))).
Proof.
  intros (_ & Hp & _) Hwf. unfold is_uint256 in Hp.
  destruct c; sol_cases; try done; to_Prop; intros j Hj; cbn in Hj;
    cbn; rewrite ?proposal_at_update; repeat case_decide; subst; cbn;
    try (apply Hwf; lia); try done.
Qed.

Lemma reachable_well_formed w : reachable w -> proposals_well_formed (storage w).
Proof.
  intros (w0 & Hd & Hl).
  pose proof (deployed_wf w0 Hd) as Hwf0.
  assert (proposals_well_formed (storage w0)) as Hinit.
  { destruct Hd as (a & o & Hc). unfold constructor in Hc.
    repeat case_match; simplify_eq. rewrite <- Hc. intros i Hi. cbn in Hi. lia. }
  clear Hd. induction Hl as [|w1 w2 w3 Hstep _ IH]; [done|].
  apply IH; [by eapply step_wf|].
  destruct Hstep; [by apply transaction_well_formed | done].
Qed.

Lemma transaction_books e (c : Call) w :
  books_balance w -> books_balance (snd (transact (run_call c) e w)).
Proof.
  unfold books_balance, sum_deposits. intros [Hs Hc].
  destruct c; sol_cases; try done; to_Prop; cbn;
    rewrite ?total_pulled_in_app, ?sum_deposits_insert; cbn; split; lia.
Qed.

Local Arguments executions_logged : simpl never.

Lemma transaction_executions e (c : Call) w :
  executions_match w -> executions_match (snd (transact (run_call c) e w)).
Proof.
  unfold executions_match. intros Hm.
  destruct c; sol_cases; try done; to_Prop; intros j; specialize (Hm j); cbn;
    rewrite ?executions_logged_app; cbn;
    rewrite ?proposal_at_update; repeat case_decide; subst; cbn;
    rewrite ?Z.eqb_refl; try (rewrite Hm);
    repeat match goal with
           | |- context [?a =? ?b] =>
               destruct (Z.eqb_spec a b); [congruence|]
           end;
    try (destruct (Proposal.executed _); lia); try congruence; try lia.
Qed.

End Settled.

Section Settled_theorems.
Context {T : Type} `{IERC20 T}.
Implicit Types (e : Env) (w : World T) (i : Z).

Lemma fresh_deployed w : fresh w -> deployed w.
Proof. by intros [Hd _]. Qed.

Lemma fresh_storage w :
  fresh w ->
  exists o, storage w = mkStorage o 0 ∅ [] 0 ∅ 0 ∅ 0 /\
            events w = [] /\ calls w = [].
Proof.
  intros ((a & o & Hc) & Hev & Hcalls). unfold constructor in Hc.
  destruct (o =? 0); [discriminate|]. destruct (a =? 0); [discriminate|].
  exists o. by simplify_eq.
Qed.

Lemma later_books w w' : later w w' -> books_balance w -> books_balance w'.
Proof.
  induction 1 as [|w1 w2 w3 Hstep _ IH]; [done|]. intros Hb. apply IH.
  destruct Hstep; [by apply transaction_books | done].
Qed.

Lemma later_executions w w' :
  later w w' -> executions_match w -> executions_match w'.
Proof.
  induction 1 as [|w1 w2 w3 Hstep _ IH]; [done|]. intros Hb. apply IH.
  destruct Hstep; [by apply transaction_executions | done].
Qed.

(** X9. A proposal that is allocated and executed never changes again:
    whatever transactions follow, its tallies, its record of voters, its
    terms and its flag are as they were. *)
Theorem executed_proposal_is_final w w' i :
  i < proposalCount (storage w) ->
  Proposal.executed (proposal_at (storage w) i) = true ->
  later w w' ->
  proposal_at (storage w') i = proposal_at (storage w) i.
Proof. intros Hi Hex Hl. by apply later_keeps_executed. Qed.

(** X10. Whatever transactions follow, an allocated proposal keeps its id,
    proposer, recipient, amount, description and creation time. *)
Theorem proposal_terms_never_change w w' i :
  i < proposalCount (storage w) ->
  later w w' ->
  terms_of (proposal_at (storage w') i) = terms_of (proposal_at (storage w) i).
Proof. intros Hi Hl. by apply later_keeps_terms. Qed.

(** X11. In every world reached from deployment, every allocated proposal is
    stored under its own id and has a non-zero recipient and a non-zero
    amount. *)
Theorem allocated_proposals_well_formed w i :
  reachable w ->
  0 <= i < proposalCount (storage w) ->
  Proposal.id (proposal_at (storage w) i) = i /\
  Proposal.recipient (proposal_at (storage w) i) <> 0 /\
  Proposal.amount (proposal_at (storage w) i) <> 0.
Proof. intros Hr Hi. by apply (reachable_well_formed w Hr). Qed.

(** X12. A successful [executeProposal] found the proposal allocated and
    pending with a strict majority of the current member count in favour and
    the treasury's token balance covering the amount.  It ends in the world
    in which only that proposal's flag has changed in storage, the token has
    made one transfer of the proposal's amount to its recipient, and
    [ProposalExecuted] with the caller and [isAI = false] is logged; so it
    leaves every deposit, [totalDeposits], the tallies and the membership as
    they were. *)
Theorem executeProposal_effect e w i w' :
  transact (executeProposal i) e w = (Ok tt, w') ->
  let s := storage w in
  let p := proposal_at s i in
  i < proposalCount s /\
  Proposal.executed p = false /\
  memberCount s < 2 * Proposal.votesFor p /\
  Proposal.amount p <= balanceOf (token w) (this w) /\
  (exists t', transfer_out w i = Transferred t' /\
              w' = executed_world w i t' (sender e) false) /\
  deposits (storage w') = deposits s /\
  totalDeposits (storage w') = totalDeposits s /\
  administration (storage w') = administration s /\
  (forall j, j <> i -> proposal_at (storage w') j = proposal_at s j) /\
  proposal_at (storage w') i = Proposal.set_executed true p.
Proof.
  cbv zeta. unfold transfer_out, executed_world.
  sol_cases; intros; simplify_eq; to_Prop; cbn.
  split_and!; auto.
  - pose proof (Z.div_mod (memberCount (storage w)) 2 ltac:(lia)).
    pose proof (Z.mod_pos_bound (memberCount (storage w)) 2 ltac:(lia)). lia.
  - eexists. by split.
  - intros j Hj. by rewrite proposal_at_update_ne.
  - by rewrite proposal_at_update_eq.
Qed.

(** What a successful [autoExecute] found and what it leaves. *)
Lemma autoExecute_outcome e w i w' :
  transact (autoExecute i) e w = (Ok tt, w') ->
  sender e = aiOracle (storage w) /\
  i < proposalCount (storage w) /\
  Proposal.executed (proposal_at (storage w) i) = false /\
  Proposal.amount (proposal_at (storage w) i) <= balanceOf (token w) (this w) /\
  exists t', transfer_out w i = Transferred t' /\
             w' = executed_world w i t' (sender e) true.
Proof.
  unfold transfer_out, executed_world.
  sol_cases; intros; simplify_eq; to_Prop; cbn.
  split_and!; auto. eexists. by split.
Qed.

(** X13. A successful [autoExecute] was sent by the registered oracle and
    found the proposal allocated and pending with the balance covering the
    amount; it has the effect of a manual execution but for [isAI = true] in
    the event, and asks nothing of the votes. *)
Theorem autoExecute_effect e w i w' :
  transact (autoExecute i) e w = (Ok tt, w') ->
  let s := storage w in
  let p := proposal_at s i in
  sender e = aiOracle s /\
  i < proposalCount s /\
  Proposal.executed p = false /\
  Proposal.amount p <= balanceOf (token w) (this w) /\
  (exists t', transfer_out w i = Transferred t' /\
              w' = executed_world w i t' (sender e) true) /\
  deposits (storage w') = deposits s /\
  totalDeposits (storage w') = totalDeposits s /\
  administration (storage w') = administration s /\
  (forall j, j <> i -> proposal_at (storage w') j = proposal_at s j) /\
  proposal_at (storage w') i = Proposal.set_executed true p.
Proof.
  cbv zeta. intros Hrun.
  destruct (autoExecute_outcome e w i w' Hrun)
    as (Ho & Hi & Hex & Hb & t' & Ht & ->).
  split_and!; eauto.
  - intros j Hj. cbn. by rewrite proposal_at_update_ne.
  - cbn. by rewrite proposal_at_update_eq.
Qed.

(** X26. Adding or removing a member touches no proposal and no balance:
    after a successful [addMember] or [removeMember] every proposal, with
    its tallies and its record of voters, the proposal count, every deposit
    and [totalDeposits] are as before, so votes cast by a member who is
    later removed stand. *)
Theorem membership_changes_keep_votes e w m w' :
  transact (addMember m) e w = (Ok tt, w') \/
  transact (removeMember m) e w = (Ok tt, w') ->
  proposals (storage w') = proposals (storage w) /\
  proposalCount (storage w') = proposalCount (storage w) /\
  deposits (storage w') = deposits (storage w) /\
  totalDeposits (storage w') = totalDeposits (storage w) /\
  aiOracle (storage w') = aiOracle (storage w) /\
  token w' = token w.
Proof.
  intros [Hrun | Hrun]; revert Hrun; sol_cases; intros; simplify_eq; done.
Qed.

(** X14. From a fresh deployment on, [totalDeposits] is the sum of all
    recorded deposits, and it is the sum of the amounts of the
    [safeTransferFrom] calls of the transactions that went through. *)
Theorem deposits_add_up w0 w :
  fresh w0 -> later w0 w ->
  totalDeposits (storage w) = sum_deposits (storage w) /\
  totalDeposits (storage w) = total_pulled_in (calls w).
Proof.
  intros Hf Hl. destruct (fresh_storage w0 Hf) as (o & Hs & _ & Hcalls).
  apply (later_books w0 w Hl). unfold books_balance, sum_deposits.
  rewrite Hcalls, Hs. cbn. by rewrite map_fold_empty.
Qed.

(** X15. From a fresh deployment on, the log holds exactly one
    [ProposalExecuted] event for every proposal whose flag is set and none
    for any other. *)
Theorem executions_logged_once w0 w i :
  fresh w0 -> later w0 w ->
  executions_logged i (events w)
  = if Proposal.executed (proposal_at (storage w) i) then 1%nat else 0%nat.
Proof.
  intros Hf Hl. destruct (fresh_storage w0 Hf) as (o & Hs & Hev & _).
  apply (later_executions w0 w Hl). intros j. rewrite Hev, Hs.
  unfold proposal_at, sload. cbn. by rewrite lookup_empty.
Qed.

(** X17. [getProposal] reads back what [createProposal] stored: right after
    a successful creation it returns the new id, the caller, the recipient,
    amount and description given, zero votes, [executed = false] and the
    block time; in every later world it still returns the same id,
    proposer, recipient, amount, description and creation time. *)
Theorem getProposal_reads_back e w r a d n w' :
  reachable w ->
  transact (createProposal r a d) e w = (Ok n, w') ->
  (forall e', transact (getProposal n) e' w'
              = (Ok (n, sender e, r, a, d, 0, 0, false, timestamp e), w')) /\
  (forall w'' e', later w' w'' ->
     exists votesFor votesAgainst executed,
       transact (getProposal n) e' w''
       = (Ok (n, sender e, r, a, d, votesFor, votesAgainst, executed,
              timestamp e), w'')).
Proof.
  intros Hr Hrun.
  pose proof (reachable_wf w Hr) as Hwf.
  pose proof (proposal_at_fresh _ (proposalCount (storage w)) Hwf ltac:(lia)) as Hz.
  assert (n = proposalCount (storage w) /\
          proposalCount (storage w') = n + 1 /\
          proposal_at (storage w') n
          = Proposal.mk n (sender e) r a d 0 0 ∅ false (timestamp e))
    as (-> & Hn & Hp).
  { revert Hrun. sol_cases; intros; simplify_eq; cbn.
    split_and!; [done | done |].
    rewrite !proposal_at_update_eq. cbn.
    change (proposal_at _ (proposalCount (storage w)))
      with (proposal_at (storage w) (proposalCount (storage w))).
    by rewrite Hz. }
  split.
  - intros e'. unfold getProposal. sol_unfold.
    assert ((proposalCount (storage w') <=? proposalCount (storage w)) = false)
      by (apply Z.leb_gt; lia).
    sol_rw. by rewrite Hp.
  - intros w'' e' Hl.
    pose proof (later_keeps_terms w' w'' (proposalCount (storage w)) Hl
                  ltac:(lia)) as Ht.
    rewrite Hp in Ht. unfold terms_of in Ht. cbn in Ht.
    destruct (later_grows _ _ Hl) as (Hc & _).
    assert ((proposalCount (storage w'') <=? proposalCount (storage w)) = false)
      by (apply Z.leb_gt; lia).
    eexists _, _, _. unfold getProposal. sol_unfold. sol_rw.
    injection Ht as H1 H2 H3 H4 H5 H6. by rewrite H1, H2, H3, H4, H5, H6.
Qed.

(** X18. The [hasVoted] view answers [false] for an identity that has not
    voted on an allocated proposal and [true] once its vote has succeeded,
    and goes on answering [true] in every later world. *)
Theorem hasVoted_reads_votes e w i support w' :
  transact (vote i support) e w = (Ok tt, w') ->
  (forall e', transact (hasVoted i (sender e)) e' w = (Ok false, w)) /\
  (forall w'' e', later w' w'' ->
     transact (hasVoted i (sender e)) e' w'' = (Ok true, w'')).
Proof.
  intros Hrun.
  destruct (vote_success_inv e w i support w' Hrun) as (Hi & _ & _ & Hv).
  split.
  - intros e'. revert Hrun. sol_cases; intros; simplify_eq; done.
  - intros w'' e' Hl.
    destruct (later_grows _ _ Hl) as (Hc & _ & Hvoted).
    specialize (Hvoted i (sender e) Hv).
    assert ((proposalCount (storage w'') <=? i) = false) by (apply Z.leb_gt; lia).
    sol_unfold. by sol_rw.
Qed.
End Settled_theorems.

(** * Further properties of the oracle *)

Module OracleMore.
Import Oracle OracleFacts.
Local Open Scope string_scope.

Lemma lowercase_keywords :
  toLowerCase "emergency" = "emergency" /\
  toLowerCase "subscription" = "subscription" /\
  toLowerCase "gas" = "gas" /\
  toLowerCase "urgent" = "urgent".
Proof. by vm_compute. Qed.

(** Below a positive binary64 value with a smaller exponent, below one with
    a larger exponent. *)
Lemma ltb_finite_mono (x : Number) (ma mb : positive) (ea eb : Z) :
  ea < eb ->
  ltb x (S754_finite false ma ea) = true ->
  ltb x (S754_finite false mb eb) = true.
Proof.
  intros Hexp. unfold ltb, SFltb, SFcompare.
  destruct x as [s|s| |s m ex]; try done.
  destruct s; [done|].
  destruct (Z.compare_spec ex ea) as [-> | Hlt | Hgt]; try done.
  - intros _. destruct (Z.compare_spec ea eb); [lia | done | lia].
  - intros _. destruct (Z.compare_spec ex eb); [lia | done | lia].
Qed.

Lemma thresholds_binary64 :
  num 5 = S754_finite false 5629499534213120 (-50) /\
  num 10 = S754_finite false 5629499534213120 (-49) /\
  num 20 = S754_finite false 5629499534213120 (-48) /\
  num 50 = S754_finite false 7036874417766400 (-47).
Proof. by vm_compute. Qed.

(** An amount not under 50 is not under 5, 10 or 20 either. *)
Lemma not_under_50 (x : Number) :
  ltb x (num 50) = false ->
  ltb x (num 10) = false /\ ltb x (num 5) = false /\ ltb x (num 20) = false.
Proof.
  destruct thresholds_binary64 as (-> & -> & -> & ->). intros H50.
  split_and!;
    (destruct (ltb x (S754_finite false 5629499534213120 _)) eqn:Hlt; [|done];
     apply (ltb_finite_mono x _ 7036874417766400 _ (-47)) in Hlt; [congruence | lia]).
Qed.

Lemma keyword_test (text keyword : string) :
  toLowerCase keyword = keyword ->
  ~ contains_ci text keyword -> includes (toLowerCase text) keyword = false.
Proof.
  intros Hkw Hno. destruct (includes _ _) eqn:Hi; [|done].
  by apply (includes_lower_spec _ _ Hkw) in Hi.
Qed.
End OracleMore.

(** X19. The decision does not depend on the case of the description's
    letters: two descriptions that differ only in case get the same
    decision for every amount and balance. *)
Theorem aiDecision_ignores_case (wei balance : Z) (text1 text2 : string) :
  Oracle.same_text text1 text2 ->
  Oracle.aiDecision wei text1 balance = Oracle.aiDecision wei text2 balance.
Proof.
  intros Hsame. apply OracleFacts.same_text_lower in Hsame.
  unfold Oracle.aiDecision. cbv zeta. by rewrite Hsame.
Qed.

(** X20. A description that contains none of the four keywords, in any
    case, is never approved, whatever the amount and the balance. *)
Theorem aiDecision_needs_keyword (wei balance : Z) (text : string) :
  ~ Oracle.contains_ci text "emergency" ->
  ~ Oracle.contains_ci text "subscription" ->
  ~ Oracle.contains_ci text "gas" ->
  ~ Oracle.contains_ci text "urgent" ->
  Oracle.aiDecision wei text balance = false.
Proof.
  intros H1 H2 H3 H4.
  destruct OracleMore.lowercase_keywords as (K1 & K2 & K3 & K4).
  unfold Oracle.aiDecision. cbv zeta.
  rewrite (OracleMore.keyword_test _ _ K1 H1), (OracleMore.keyword_test _ _ K2 H2),
    (OracleMore.keyword_test _ _ K3 H3), (OracleMore.keyword_test _ _ K4 H4).
  cbn. by destruct (Oracle.ltb _ _).
Qed.

(** X21. An amount whose Number is not below 50 is never approved, whatever
    the description and the balance: 50 is the largest of the thresholds. *)
Theorem aiDecision_caps_amount (wei balance : Z) (text : string) :
  Oracle.ltb (Oracle.Number_formatEther wei) (Oracle.num 50) = false ->
  Oracle.aiDecision wei text balance = false.
Proof.
  intros H50. destruct (OracleMore.not_under_50 _ H50) as (H10 & H5 & H20).
  unfold Oracle.aiDecision. cbv zeta.
  rewrite H50, H10, H5, H20, !andb_false_r.
  by destruct (Oracle.ltb (Oracle.sub _ _) _).
Qed.

(** X22. The first three rules do not look at the treasury: an "emergency"
    under 10, a "subscription" under 50 or a "gas" request under 5 is
    approved for every balance, also one that cannot cover the amount. *)
Theorem aiDecision_keyword_rules_ignore_balance (wei : Z) (text : string) :
  let amount := Oracle.Number_formatEther wei in
  (Oracle.contains_ci text "emergency" /\ Oracle.less amount (Oracle.num 10)) \/
  (Oracle.contains_ci text "subscription" /\ Oracle.less amount (Oracle.num 50)) \/
  (Oracle.contains_ci text "gas" /\ Oracle.less amount (Oracle.num 5)) ->
  forall balance, Oracle.aiDecision wei text balance = true.
Proof.
  cbv zeta. intros Hrule balance.
  destruct OracleMore.lowercase_keywords as (K1 & K2 & K3 & _).
  unfold Oracle.aiDecision. cbv zeta.
  destruct Hrule as [Hr | [Hr | Hr]].
  - apply (OracleFacts.keyword_rule _ _ _ _ K1) in Hr. by rewrite Hr.
  - apply (OracleFacts.keyword_rule _ _ _ _ K2) in Hr. rewrite Hr.
    by destruct (Oracle.includes (Oracle.toLowerCase text) "emergency" && _).
  - apply (OracleFacts.keyword_rule _ _ _ _ K3) in Hr. rewrite Hr.
    destruct (Oracle.includes (Oracle.toLowerCase text) "emergency" && _);
      [done|].
    by destruct (Oracle.includes (Oracle.toLowerCase text) "subscription" && _).
Qed.

(** * The bot and the ledger together *)

Section Bot_and_ledger.
Context {T : Type} `{IERC20 T}.
Implicit Types (wallet : Env) (w : World T) (i : Z).

Lemma getProposal_found wallet w i :
  i < proposalCount (storage w) ->
  fst (transact (getProposal i) wallet w)
  = Ok (Proposal.id (proposal_at (storage w) i),
        Proposal.proposer (proposal_at (storage w) i),
        Proposal.recipient (proposal_at (storage w) i),
        Proposal.amount (proposal_at (storage w) i),
        Proposal.description (proposal_at (storage w) i),
        Proposal.votesFor (proposal_at (storage w) i),
        Proposal.votesAgainst (proposal_at (storage w) i),
        Proposal.executed (proposal_at (storage w) i),
        Proposal.createdAt (proposal_at (storage w) i)).
Proof.
  intros Hi. apply Z.leb_gt in Hi. unfold getProposal. sol_unfold. by sol_rw.
Qed.

Lemma getProposal_missing wallet w i :
  proposalCount (storage w) <= i ->
  fst (transact (getProposal i) wallet w) = Revert ProposalNotFound.
Proof.
  intros Hi. apply Z.leb_le in Hi. unfold getProposal. sol_unfold. by sol_rw.
Qed.

(** The handler's result, once the proposal has been read. *)
Lemma analyzeAndExecute_found wallet i amount description w_read w_balance w_tx :
  i < proposalCount (storage w_read) ->
  Bot.analyzeAndExecute wallet i amount description w_read w_balance w_tx =
  if Proposal.executed (proposal_at (storage w_read) i)
  then (Bot.Skipped_executed, w_tx)
  else if Oracle.aiDecision (Proposal.amount (proposal_at (storage w_read) i))
            description (balanceOf (token w_balance) (this w_balance))
       then Bot.executeProposal wallet i w_tx
       else (Bot.Skipped_by_decision, w_tx).
Proof.
  intros Hi. unfold Bot.analyzeAndExecute.
  rewrite (getProposal_found wallet w_read i Hi). reflexivity.
Qed.

(** X23. The handler changes the ledger only by a successful [autoExecute]:
    if the world it leaves differs from the one its transaction met, then
    the proposal was allocated and pending when read, the decision on the
    amount read, the description given and the balance read was to execute,
    the wallet is the registered oracle, and the world is the one an
    execution of that proposal produces.  For an id that is not allocated
    when read it reports [Analysis_failed ProposalNotFound]. *)
Theorem bot_changes_only_what_it_approved
        wallet i amount description w_read w_balance w_tx :
  let result := Bot.analyzeAndExecute wallet i amount description
                  w_read w_balance w_tx in
  (snd result <> w_tx ->
   i < proposalCount (storage w_read) /\
   Proposal.executed (proposal_at (storage w_read) i) = false /\
   Oracle.aiDecision (Proposal.amount (proposal_at (storage w_read) i))
     description (balanceOf (token w_balance) (this w_balance)) = true /\
   sender wallet = aiOracle (storage w_tx) /\
   fst result = Bot.Executed /\
   exists t', transfer_out w_tx i = Transferred t' /\
              snd result = executed_world w_tx i t' (sender wallet) true) /\
  (proposalCount (storage w_read) <= i ->
   result = (Bot.Analysis_failed ProposalNotFound, w_tx)).
Proof.
  cbv zeta. split.
  - intros Hchanged.
    destruct (Z.lt_ge_cases i (proposalCount (storage w_read))) as [Hi | Hi].
    + rewrite (analyzeAndExecute_found _ _ _ _ _ _ _ Hi) in *.
      destruct (Proposal.executed _); [done|].
      destruct (Oracle.aiDecision _ _ _); [|done].
      unfold Bot.executeProposal in *.
      destruct (transact (autoExecute i) wallet w_tx) as [[[]|err] w'] eqn:Hrun.
      * destruct (autoExecute_outcome _ _ _ _ Hrun)
          as (Ho & _ & _ & _ & Ht). cbn. split_and!; auto.
      * apply transact_revert in Hrun. by subst.
    + unfold Bot.analyzeAndExecute in *.
      rewrite (getProposal_missing wallet w_read i Hi) in *. done.
  - intros Hi. unfold Bot.analyzeAndExecute.
    by rewrite (getProposal_missing wallet w_read i Hi).
Qed.

(** X24. When the decision on what the handler read is to execute, the
    wallet is the registered oracle and the proposal is still pending when
    the transaction lands, the handler pays the proposal out as soon as the
    treasury's balance covers it and the token's transfer succeeds, whatever
    the votes. *)
Theorem bot_executes_what_it_approves
        wallet i amount description w_read w_balance w_tx t' :
  let p := proposal_at (storage w_read) i in
  i < proposalCount (storage w_read) ->
  Proposal.executed p = false ->
  Oracle.aiDecision (Proposal.amount p) description
    (balanceOf (token w_balance) (this w_balance)) = true ->
  sender wallet = aiOracle (storage w_tx) ->
  i < proposalCount (storage w_tx) ->
  Proposal.executed (proposal_at (storage w_tx) i) = false ->
  Proposal.amount (proposal_at (storage w_tx) i)
    <= balanceOf (token w_tx) (this w_tx) ->
  transfer_out w_tx i = Transferred t' ->
  Bot.analyzeAndExecute wallet i amount description w_read w_balance w_tx
  = (Bot.Executed, executed_world w_tx i t' (sender wallet) true).
Proof.
  cbv zeta. intros Hi Hex Hd Ho Hi' Hex' Hb Ht.
  rewrite (analyzeAndExecute_found _ _ _ _ _ _ _ Hi), Hex, Hd.
  unfold Bot.executeProposal, transact.
  rewrite autoExecute_run by done. by rewrite Ht.
Qed.

(** X25. The handler loses a race cleanly: if the proposal it read as
    pending has been executed by the time its transaction lands, the
    transaction reverts with [ProposalAlreadyExecuted], which the handler
    reports, and the ledger is untouched; and if the wallet is not the
    registered oracle it reports [UnauthorizedAIExecution]. *)
Theorem bot_loses_race_cleanly
        wallet i amount description w_read w_balance w_tx :
  let p := proposal_at (storage w_read) i in
  i < proposalCount (storage w_read) ->
  Proposal.executed p = false ->
  Oracle.aiDecision (Proposal.amount p) description
    (balanceOf (token w_balance) (this w_balance)) = true ->
  later w_read w_tx ->
  (sender wallet = aiOracle (storage w_tx) ->
   Proposal.executed (proposal_at (storage w_tx) i) = true ->
   Bot.analyzeAndExecute wallet i amount description w_read w_balance w_tx
   = (Bot.Execution_failed ProposalAlreadyExecuted, w_tx)) /\
  (sender wallet <> aiOracle (storage w_tx) ->
   Bot.analyzeAndExecute wallet i amount description w_read w_balance w_tx
   = (Bot.Execution_failed UnauthorizedAIExecution, w_tx)).
Proof.
  cbv zeta. intros Hi Hex Hd Hl.
  destruct (later_grows _ _ Hl) as (Hn & _).
  rewrite (analyzeAndExecute_found _ _ _ _ _ _ _ Hi), Hex, Hd.
  unfold Bot.executeProposal. split.
  - intros Ho Hex'. rewrite autoExecute_already; [done | done | lia | done].
  - intros Ho. by rewrite autoExecute_unauthorized.
Qed.
End Bot_and_ledger.

(** * The further properties at work *)

Lemma genesis_fresh : fresh Example.genesis.
Proof.
  split; [|done]. exists Example.mnee, Example.admin. reflexivity.
Qed.

Lemma reachable_play (script : list (Env * Call)) (w : World PlainToken) :
  reachable w -> reachable (play script w).
Proof. intros Hr. eapply reachable_later; [exact Hr | apply play_later]. Qed.

Lemma proposed_reachable : reachable Example.proposed.
Proof. apply reachable_play, funded_reachable. Qed.

Lemma one_vote_reachable : reachable Example.one_vote.
Proof. apply reachable_play, proposed_reachable. Qed.

Lemma approved_reachable : reachable Example.approved.
Proof. apply reachable_play, one_vote_reachable. Qed.

Lemma paid_reachable : reachable Example.paid.
Proof. apply reachable_play, approved_reachable. Qed.

Lemma aftermath_later_paid : later Example.paid Scenario.aftermath.
Proof. apply play_later. Qed.

Lemma aftermath_later_genesis : later Example.genesis Scenario.aftermath.
Proof.
  unfold Scenario.aftermath, Example.paid, Example.approved, Example.one_vote,
    Example.proposed, Example.funded.
  repeat (eapply later_trans; [|apply play_later]). apply rtc_refl.
Qed.

Lemma member_count_counts_members_witness :
  memberCount (storage Scenario.aftermath)
  = Z.of_nat (size (current_members (storage Scenario.aftermath))) /\
  memberCount (storage Scenario.aftermath)
  <= Z.of_nat (length (members (storage Scenario.aftermath))).
Proof.
  destruct (member_count_counts_members Scenario.aftermath
              (reachable_later _ _ paid_reachable aftermath_later_paid))
    as (Hcount & _ & Hlen).
  split; [exact Hcount | exact Hlen].
Defined.

Lemma only_owner_administers_witness :
  transact (addMember Example.mallory) Scenario.stranger Example.funded
  = (Revert OwnableUnauthorizedAccount, Example.funded) /\
  transact (setAIOracle Example.mallory) Scenario.stranger Example.funded
  = (Revert OwnableUnauthorizedAccount, Example.funded).
Proof.
  destruct (only_owner_administers Scenario.stranger Example.funded
              ltac:(crunch)) as (_ & Hadd & _ & Hset & _).
  split; [exact (Hadd Example.mallory) | exact (Hset Example.mallory)].
Defined.

Lemma add_then_remove_member_witness :
  transact (addMember Example.alice) Scenario.admin_env Example.funded
  = (Revert AlreadyMember, Example.funded) /\
  transact (removeMember Example.mallory) Scenario.admin_env Example.funded
  = (Revert NotMember, Example.funded) /\
  exists w1 w2,
    transact (addMember Example.mallory) Scenario.admin_env Example.funded
    = (Ok tt, w1) /\
    transact (removeMember Example.mallory) Scenario.admin_env w1 = (Ok tt, w2) /\
    memberCount (storage w2) = memberCount (storage Example.funded).
Proof.
  destruct (add_then_remove_member Scenario.admin_env Example.funded Example.alice
              ltac:(crunch)) as (Halready & _ & _).
  destruct (add_then_remove_member Scenario.admin_env Example.funded
              Example.mallory ltac:(crunch)) as (_ & Hnot & Hround).
  split; [exact (Halready ltac:(crunch))|].
  split; [exact (Hnot ltac:(crunch))|].
  destruct (Hround ltac:(crunch) ltac:(crunch))
    as (w1 & w2 & Hadd & _ & Hrem & _ & Hcount & _).
  exists w1, w2. split_and!; [exact Hadd | exact Hrem | exact Hcount].
Defined.

Lemma setAIOracle_hands_over_witness :
  exists w',
    transact (setAIOracle Example.mallory) Scenario.admin_env Example.funded
    = (Ok tt, w') /\
    transact (autoExecute 0) Scenario.wallet w'
    = (Revert UnauthorizedAIExecution, w').
Proof.
  pose proof (setAIOracle_hands_over Scenario.admin_env Example.funded
                Example.mallory ltac:(crunch)) as Hover. cbv zeta in Hover.
  destruct Hover as (Hset & Hlost).
  eexists. split; [exact Hset|]. exact (Hlost Scenario.wallet 0 ltac:(crunch)).
Defined.

Lemma vote_counts_once_witness :
  exists w',
    transact (vote 0 false) (mkEnv Example.carol 0) Example.one_vote = (Ok tt, w') /\
    Proposal.votesFor (proposal_at (storage w') 0) = 1 /\
    Proposal.votesAgainst (proposal_at (storage w') 0) = 1.
Proof.
  pose proof (vote_counts_once (mkEnv Example.carol 0) Example.one_vote 0 false)
    as Hvote. cbv zeta in Hvote.
  destruct (Hvote ltac:(crunch) ltac:(crunch) ltac:(crunch) ltac:(crunch)
              ltac:(crunch) ltac:(crunch))
    as (w' & Hrun & Hfor & Hagainst & _).
  exists w'. split; [exact Hrun|].
  split; [etrans; [exact Hfor | crunch] | etrans; [exact Hagainst | crunch]].
Defined.

Lemma vote_guards_witness :
  transact (vote 0 true) Scenario.stranger Example.proposed
  = (Revert NotMember, Example.proposed) /\
  transact (vote 7 true) (mkEnv Example.alice 0) Example.proposed
  = (Revert ProposalNotFound, Example.proposed).
Proof.
  split.
  - exact (proj1 (vote_guards Scenario.stranger Example.proposed 0 true)
             ltac:(crunch)).
  - exact (proj2 (vote_guards (mkEnv Example.alice 0) Example.proposed 7 true)
             ltac:(crunch) ltac:(crunch)).
Defined.

Lemma unknown_proposal_rejected_witness :
  transact (executeProposal 2) Scenario.stranger Example.proposed
  = (Revert ProposalNotFound, Example.proposed) /\
  transact (getProposal 2) Scenario.stranger Example.proposed
  = (Revert ProposalNotFound, Example.proposed) /\
  transact (autoExecute 2) Scenario.wallet Example.proposed
  = (Revert ProposalNotFound, Example.proposed).
Proof.
  destruct (unknown_proposal_rejected Scenario.stranger Example.proposed 2
              ltac:(crunch)) as (Hexec & Hget & _).
  destruct (unknown_proposal_rejected Scenario.wallet Example.proposed 2
              ltac:(crunch)) as (_ & _ & _ & Hauto).
  split_and!; [exact Hexec | exact Hget | exact (Hauto ltac:(crunch))].
Defined.

Lemma tallies_count_voters_witness :
  Proposal.votesFor (proposal_at (storage Scenario.aftermath) 1)
  + Proposal.votesAgainst (proposal_at (storage Scenario.aftermath) 1)
  = Z.of_nat (size (voters (proposal_at (storage Scenario.aftermath) 1))).
Proof.
  pose proof (tallies_count_voters Scenario.aftermath 1
                (reachable_later _ _ paid_reachable aftermath_later_paid))
    as Htally. cbv zeta in Htally.
  exact (proj2 (proj2 Htally)).
Defined.

Lemma executed_proposal_is_final_witness :
  proposal_at (storage Scenario.aftermath) 0 = proposal_at (storage Example.paid) 0.
Proof.
  exact (executed_proposal_is_final Example.paid Scenario.aftermath 0
           ltac:(crunch) ltac:(crunch) aftermath_later_paid).
Defined.

Lemma proposal_terms_never_change_witness :
  terms_of (proposal_at (storage Scenario.aftermath) 1)
  = terms_of (proposal_at (storage Example.paid) 1).
Proof.
  exact (proposal_terms_never_change Example.paid Scenario.aftermath 1
           ltac:(crunch) aftermath_later_paid).
Defined.

Lemma allocated_proposals_well_formed_witness :
  Proposal.id (proposal_at (storage Scenario.aftermath) 2) = 2 /\
  Proposal.recipient (proposal_at (storage Scenario.aftermath) 2) <> 0 /\
  Proposal.amount (proposal_at (storage Scenario.aftermath) 2) <> 0.
Proof.
  exact (allocated_proposals_well_formed Scenario.aftermath 2
           (reachable_later _ _ paid_reachable aftermath_later_paid)
           ltac:(crunch)).
Defined.

Lemma executeProposal_effect_witness :
  memberCount (storage Example.approved)
  < 2 * Proposal.votesFor (proposal_at (storage Example.approved) 0) /\
  totalDeposits (storage Example.paid) = totalDeposits (storage Example.approved).
Proof.
  assert (Hrun : transact (executeProposal 0)
                   (Example.by_ Example.carol (Call_executeProposal 0)).1
                   Example.approved = (Ok tt, Example.paid)) by crunch.
  pose proof (executeProposal_effect _ _ _ _ Hrun) as Heff. cbv zeta in Heff.
  destruct Heff as (_ & _ & Hmaj & _ & _ & _ & Htot & _).
  split; [exact Hmaj | exact Htot].
Defined.

Lemma autoExecute_effect_witness :
  exists w',
    transact (autoExecute 0) Scenario.wallet Example.proposed = (Ok tt, w') /\
    Proposal.votesFor (proposal_at (storage Example.proposed) 0) = 0 /\
    proposal_at (storage w') 0
    = Proposal.set_executed true (proposal_at (storage Example.proposed) 0).
Proof.
  destruct (transact (autoExecute 0) Scenario.wallet Example.proposed)
    as [[[]|err] w'] eqn:Hrun; [|by vm_compute in Hrun].
  pose proof (autoExecute_effect Scenario.wallet Example.proposed 0 w' Hrun)
    as Heff. cbv zeta in Heff.
  destruct Heff as (_ & _ & _ & _ & _ & _ & _ & _ & _ & Hflag).
  exists w'. split_and!; [reflexivity | crunch | exact Hflag].
Defined.

Lemma deposits_add_up_witness :
  totalDeposits (storage Scenario.aftermath) = sum_deposits (storage Scenario.aftermath)
  /\ totalDeposits (storage Scenario.aftermath)
     = total_pulled_in (calls Scenario.aftermath).
Proof.
  exact (deposits_add_up Example.genesis Scenario.aftermath genesis_fresh
           aftermath_later_genesis).
Defined.

Lemma executions_logged_once_witness :
  executions_logged 0 (events Scenario.aftermath) = 1%nat /\
  executions_logged 1 (events Scenario.aftermath) = 0%nat.
Proof.
  rewrite (executions_logged_once Example.genesis Scenario.aftermath 0
             genesis_fresh aftermath_later_genesis).
  rewrite (executions_logged_once Example.genesis Scenario.aftermath 1
             genesis_fresh aftermath_later_genesis).
  crunch.
Defined.

Lemma getProposal_reads_back_witness :
  exists w',
    transact (createProposal Example.vendor 100 "subscription renewal")
      (mkEnv Example.bob 1700000000) Example.funded = (Ok 0, w') /\
    transact (getProposal 0) Scenario.wallet w'
    = (Ok (0, Example.bob, Example.vendor, 100, "subscription renewal", 0, 0,
           false, 1700000000), w').
Proof.
  destruct (transact (createProposal Example.vendor 100 "subscription renewal")
              (mkEnv Example.bob 1700000000) Example.funded)
    as [[n|err] w'] eqn:Hrun; [|by vm_compute in Hrun].
  assert (n = 0) as -> by (vm_compute in Hrun; congruence).
  exists w'. split; [reflexivity|].
  exact (proj1 (getProposal_reads_back (mkEnv Example.bob 1700000000)
                  Example.funded Example.vendor 100 "subscription renewal" 0 w'
                  funded_reachable Hrun) Scenario.wallet).
Defined.

Lemma hasVoted_reads_votes_witness :
  transact (hasVoted 0 Example.alice) Scenario.wallet Example.proposed
  = (Ok false, Example.proposed) /\
  transact (hasVoted 0 Example.alice) Scenario.wallet Example.paid
  = (Ok true, Example.paid).
Proof.
  destruct (hasVoted_reads_votes
              (Example.by_ Example.alice (Call_vote 0 true)).1
              Example.proposed 0 true Example.one_vote ltac:(crunch))
    as (Hbefore & Hafter).
  split; [exact (Hbefore Scenario.wallet)|].
  apply (Hafter Example.paid Scenario.wallet).
  unfold Example.paid, Example.approved.
  eapply later_trans; apply play_later.
Defined.

Lemma aiDecision_ignores_case_witness :
  Oracle.aiDecision (15 * Oracle.MNEE) "URGENT: Server Bill" (500 * Oracle.MNEE)
  = Oracle.aiDecision (15 * Oracle.MNEE) "urgent: server bill" (500 * Oracle.MNEE).
Proof.
  apply (aiDecision_ignores_case (15 * Oracle.MNEE) (500 * Oracle.MNEE)
           "URGENT: Server Bill" "urgent: server bill").
  apply OracleFacts.same_text_lower. vm_compute. reflexivity.
Defined.

Lemma aiDecision_needs_keyword_witness :
  Oracle.aiDecision (1 * Oracle.MNEE) "new office chairs" (1000 * Oracle.MNEE)
  = false.
Proof.
  apply (aiDecision_needs_keyword (1 * Oracle.MNEE) (1000 * Oracle.MNEE)
           "new office chairs");
    apply OracleFacts.lacks_by_evaluation; vm_compute; reflexivity.
Defined.

Lemma aiDecision_caps_amount_witness :
  Oracle.aiDecision (50 * Oracle.MNEE) "emergency subscription gas urgent"
    (100000 * Oracle.MNEE) = false.
Proof.
  apply (aiDecision_caps_amount (50 * Oracle.MNEE) (100000 * Oracle.MNEE)
           "emergency subscription gas urgent").
  vm_compute. reflexivity.
Defined.

Lemma aiDecision_keyword_rules_ignore_balance_witness :
  Oracle.aiDecision (8 * Oracle.MNEE) "Emergency repair" 0 = true /\
  Oracle.aiDecision (8 * Oracle.MNEE) "Emergency repair" (500 * Oracle.MNEE) = true.
Proof.
  pose proof (aiDecision_keyword_rules_ignore_balance (8 * Oracle.MNEE)
                "Emergency repair") as Hrule. cbv zeta in Hrule.
  assert (Hfires :
            Oracle.contains_ci "Emergency repair" "emergency" /\
            Oracle.less (Oracle.Number_formatEther (8 * Oracle.MNEE))
              (Oracle.num 10)).
  { split; [apply OracleFacts.contains_by_evaluation|]; vm_compute; reflexivity. }
  split; [exact (Hrule (or_introl Hfires) 0)
         | exact (Hrule (or_introl Hfires) (500 * Oracle.MNEE))].
Defined.

Lemma bot_changes_only_what_it_approved_witness :
  Bot.analyzeAndExecute Scenario.wallet 2 5 "Gas refund"
    Example.proposed Example.proposed Example.proposed
  = (Bot.Analysis_failed ProposalNotFound, Example.proposed).
Proof.
  pose proof (bot_changes_only_what_it_approved Scenario.wallet 2 5 "Gas refund"
                Example.proposed Example.proposed Example.proposed) as Hbot.
  cbv zeta in Hbot. exact (proj2 Hbot ltac:(crunch)).
Defined.

Lemma bot_executes_what_it_approves_witness :
  exists t',
    Bot.analyzeAndExecute Scenario.wallet 0 100 "subscription renewal"
      Example.proposed Example.proposed Example.one_vote
    = (Bot.Executed,
       executed_world Example.one_vote 0 t' (sender Scenario.wallet) true).
Proof.
  destruct (transfer_out Example.one_vote 0) as [t'| |reason] eqn:Ht;
    [|by vm_compute in Ht|by vm_compute in Ht].
  exists t'.
  pose proof (bot_executes_what_it_approves Scenario.wallet 0 100
                "subscription renewal"
                Example.proposed Example.proposed Example.one_vote t') as Hbot.
  cbv zeta in Hbot.
  exact (Hbot ltac:(crunch) ltac:(crunch) ltac:(crunch) ltac:(crunch)
           ltac:(crunch) ltac:(crunch) ltac:(crunch) Ht).
Defined.

Lemma bot_loses_race_cleanly_witness :
  Bot.analyzeAndExecute Scenario.wallet 0 100 "subscription renewal"
    Example.approved Example.approved Example.paid
  = (Bot.Execution_failed ProposalAlreadyExecuted, Example.paid) /\
  Bot.analyzeAndExecute Scenario.stranger 0 100 "subscription renewal"
    Example.approved Example.approved Example.paid
  = (Bot.Execution_failed UnauthorizedAIExecution, Example.paid).
Proof.
  assert (Hl : later Example.approved Example.paid) by apply play_later.
  pose proof (bot_loses_race_cleanly Scenario.wallet 0 100 "subscription renewal"
                Example.approved Example.approved Example.paid) as Hbot.
  pose proof (bot_loses_race_cleanly Scenario.stranger 0 100
                "subscription renewal"
                Example.approved Example.approved Example.paid) as Hnot.
  cbv zeta in Hbot, Hnot.
  split.
  - exact (proj1 (Hbot ltac:(crunch) ltac:(crunch) ltac:(crunch) Hl)
             ltac:(crunch) ltac:(crunch)).
  - exact (proj2 (Hnot ltac:(crunch) ltac:(crunch) ltac:(crunch) Hl)
             ltac:(crunch)).
Defined.

Lemma membership_changes_keep_votes_witness :
  exists w',
    transact (removeMember Example.alice) Scenario.admin_env Example.one_vote
    = (Ok tt, w') /\
    Proposal.votesFor (proposal_at (storage w') 0) = 1 /\
    transact (vote 0 true) (mkEnv Example.alice 0) w' = (Revert NotMember, w').
Proof.
  destruct (transact (removeMember Example.alice) Scenario.admin_env
              Example.one_vote) as [[[]|err] w'] eqn:Hrun; [|by vm_compute in Hrun].
  destruct (membership_changes_keep_votes Scenario.admin_env Example.one_vote
              Example.alice w' (or_intror Hrun)) as (Hp & _).
  exists w'. split; [reflexivity|]. split.
  - unfold proposal_at. rewrite Hp. crunch.
  - vm_compute in Hrun. injection Hrun as <-. crunch.
Defined.
